(** * ShoukakuBot, yt-dlp HTTP API service ([docker/ytdlp-api/server.py])

    A shallow embedding of the service's admission control, job executor,
    error classifier and retention sweeper, and the properties of them that
    the specification states.

    Conventions of the embedding.
    - A Python [str] is a Rocq [string] whose characters are the code points
      U+0000..U+00FF; [str.lower] is exact on that range, and [str.upper]
      is but for the two characters whose capitals lie outside it.
    - Python [int] is [Z]; [//] by a positive constant is [Z.div].
    - Python [float] values are rationals [Q].  The clock reading in
      milliseconds and the free disk space in megabytes are computed as the
      code computes them, every product and quotient rounded to binary64
      ([Num.fl64]).  The size of a file in MB is the exact quotient: file
      sizes are below 2^53 bytes on every real volume, where the division
      by 2^20 is exact.
    - Code run by the handlers is a state-and-exception computation over a
      [world] (clock, managed directory, semaphore value, active-download
      counter, a ghost trace of admission events).
    - The managed directory is the list of its entries in listing order;
      an entry records what [os.path.isfile], [os.path.getsize],
      [os.path.getmtime] and [os.unlink] do on it, failures included.
    - The extraction engine is a parameter: any function on the outside
      world that returns an info dictionary or fails with a message.
    - [download_video] is one computation, for a call that runs alone, and
      the sequence of three pieces that the event loop runs and interleaves
      for many pending calls ([EventLoop]); [Interleaving] keeps of the
      latter the phases of the requests, the semaphore and the counter, and
      every action of [EventLoop] is one of its steps. *)

From Stdlib Require Import ZArith QArith Qround Qabs Qpower Lqa Ascii String DecimalString List Bool Lia.
From stdpp Require Import base option list strings gmap.

Local Open Scope Z_scope.

(** ** Python string primitives *)

Module Py.

Local Open Scope string_scope.

(** [c.lower()] for one character of U+0000..U+00FF: A..Z and the Latin-1
    capitals U+00C0..U+00DE (but the multiplication sign U+00D7) move up
    by 32. *)
Definition chr_lower (c : ascii) : ascii :=
  let n := N_of_ascii c in
  if ((65 <=? n) && (n <=? 90)
      || (192 <=? n) && (n <=? 222) && negb (n =? 215))%N
  then ascii_of_N (n + 32) else c.

(** [c.upper()] on the same range: a..z and the Latin-1 small letters
    U+00E0..U+00FE (but the division sign U+00F7) move down by 32, and the
    sharp s U+00DF becomes the two letters SS.  The micro sign U+00B5 and
    U+00FF are the two characters of the range whose capitals (U+039C,
    U+0178) are not in it; a text of the model cannot hold those capitals,
    and the two are left as they are. *)
Definition chr_upper (c : ascii) : string :=
  let n := N_of_ascii c in
  if (n =? 223)%N then "SS"
  else if ((97 <=? n) && (n <=? 122)
           || (224 <=? n) && (n <=? 254) && negb (n =? 247))%N
  then String (ascii_of_N (n - 32)) EmptyString
  else String c EmptyString.

Fixpoint lower (s : string) : string :=
  match s with
  | EmptyString => EmptyString
  | String c s' => String (chr_lower c) (lower s')
  end.

Fixpoint upper (s : string) : string :=
  match s with
  | EmptyString => EmptyString
  | String c s' => chr_upper c ++ upper s'
  end.

(** [hay.startswith(p)] *)
Definition startswith (hay p : string) : bool := String.prefix p hay.

(** [needle in hay] *)
Fixpoint str_in (needle hay : string) : bool :=
  String.prefix needle hay ||
  match hay with
  | EmptyString => false
  | String _ hay' => str_in needle hay'
  end.

(** Truth value of a [str]: the empty string is false. *)
Definition truthy_str (s : string) : bool :=
  match s with EmptyString => false | _ => true end.

(** [str(n)] and [f"{n}"] for an [int]. *)
Definition str_of_int (n : Z) : string :=
  NilZero.string_of_int (Z.to_int n).

(** [s.lstrip(".")] *)
Fixpoint lstrip_dot (s : string) : string :=
  match s with
  | String "."%char s' => lstrip_dot s'
  | _ => s
  end.

End Py.

(** ** Configuration (read once from the environment at start-up) *)

Record config := {
  DOWNLOAD_DIR : string;
  MAX_CONCURRENT : Z;
  MAX_DURATION : Z;
  MAX_FILE_SIZE_MB : Z
}.

(** The defaults of [os.environ.get]. *)
Definition default_config : config :=
  {| DOWNLOAD_DIR := "/downloads";
     MAX_CONCURRENT := 5;
     MAX_DURATION := 600;
     MAX_FILE_SIZE_MB := 100 |}.

(** ** Error parser *)

Section ErrorParser.

Import Py.
Local Open Scope string_scope.

Variable cfg : config.

Definition msg_duration : string :=
  "DURATION_TOO_LONG:over " ++ str_of_int (MAX_DURATION cfg / 60) ++ " minutes".
Definition msg_exceeds : string := "DURATION_TOO_LONG:exceeds limit".
Definition msg_private : string := "This video is private or requires login".
Definition msg_copyright : string := "This video is blocked due to copyright".
Definition msg_age : string := "This video is age-restricted".
Definition msg_unavailable : string := "This video is unavailable".
Definition msg_live : string := "Cannot download live streams".
Definition msg_premiere : string := "This video has not premiered yet".
Definition msg_members : string := "This video is for channel members only".
Definition msg_unsupported : string := "Unsupported URL or no video found".

(** [_parse_error].  The first test reads
    ["does not pass filter" and "duration" in lower]: Python's [in] binds
    tighter than [and], so the left operand is the string literal itself,
    taken by its truth value. *)
Definition _parse_error (error_text : string) : string :=
  let lower := lower error_text in
  if truthy_str "does not pass filter" && str_in "duration" lower then
    msg_duration
  else if str_in "does not pass filter" lower then
    msg_exceeds
  else if str_in "private video" lower || str_in "sign in" lower then
    msg_private
  else if str_in "copyright" lower || str_in "blocked" lower then
    msg_copyright
  else if str_in "age" lower || str_in "confirm your age" lower then
    msg_age
  else if str_in "unavailable" lower || str_in "not available" lower then
    msg_unavailable
  else if str_in "live" lower then
    msg_live
  else if str_in "premieres" lower || str_in "scheduled" lower then
    msg_premiere
  else if str_in "members only" lower then
    msg_members
  else if str_in "unsupported url" lower then
    msg_unsupported
  else error_text.

End ErrorParser.

(** ** Python values, exceptions and the world the handlers run in *)

(** Values the engine reports in its info dictionary. *)
Inductive pyval :=
| PNone
| PInt (n : Z)
| PBool (b : bool)
| PFloat (q : Q)
| PStr (s : string).

(** Truth value of a Python object: [None], [0], [False], [0.0] and the
    empty string are false. *)
Definition truthy (v : pyval) : bool :=
  match v with
  | PNone => false
  | PInt n => negb (n =? 0)
  | PBool b => b
  | PFloat q => negb (Qeq_bool q 0)
  | PStr s => Py.truthy_str s
  end.

(** [a or b] *)
Definition py_or (a b : pyval) : pyval := if truthy a then a else b.

(** [d.get(k)], whose default is [None]. *)
Definition dict_get (d : gmap string pyval) (k : string) : pyval :=
  default PNone (d !! k).

(** Exceptions, all subclasses of [Exception].  [Exception msg] stands for
    every exception of the engine, of the operating system and of
    [_download] itself, [msg] being its [str(e)]. *)
Inductive exn :=
| Exception (msg : string)
| TimeoutError
| HTTPException (status_code : Z) (detail : string).

Definition exn_str (e : exn) : string :=
  match e with
  | Exception msg => msg
  | TimeoutError => ""
  | HTTPException c d => (Py.str_of_int c ++ ": " ++ d)%string
  end.

(** An entry of the managed directory, given by what the [os] calls on it
    return: [d_getsize], [d_getmtime] are a value or the text of the raised
    [OSError]; [d_unlink] is [None] when the removal succeeds. *)
Record dirent := {
  d_name : string;
  d_isfile : bool;
  d_getsize : string + Z;
  d_getmtime : string + Q;
  d_unlink : option string
}.

(** What lies outside the process: the clock and the managed directory, in
    the order [os.listdir] reports it. *)
Record outside := {
  clock : Q;
  dir_entries : list dirent;
  listdir_error : option string
}.

(** Ghost events of the admission accounting. *)
Inductive event :=
| EvAcquire
| EvIncr
| EvJob
| EvDecr
| EvRelease.

Record world := {
  env : outside;
  semaphore : Z;            (* value of [asyncio.Semaphore(MAX_CONCURRENT)] *)
  active_downloads : Z;
  trace : list event
}.

Definition with_env (f : outside -> outside) (w : world) : world :=
  {| env := f (env w); semaphore := semaphore w;
     active_downloads := active_downloads w; trace := trace w |}.

Definition with_entries (l : list dirent) (o : outside) : outside :=
  {| clock := clock o; dir_entries := l; listdir_error := listdir_error o |}.

Definition with_clock (t : Q) (o : outside) : outside :=
  {| clock := t; dir_entries := dir_entries o; listdir_error := listdir_error o |}.

Definition emit (e : event) (w : world) : world :=
  {| env := env w; semaphore := semaphore w;
     active_downloads := active_downloads w; trace := trace w ++ [e] |}.

(** ** State-and-exception computations *)

Definition M (A : Type) : Type := world -> (exn + A) * world.

Definition ret {A} (a : A) : M A := fun w => (inr a, w).

Definition raise {A} (e : exn) : M A := fun w => (inl e, w).

Definition bind {A B} (c : M A) (k : A -> M B) : M B := fun w =>
  match c w with
  | (inr a, w') => k a w'
  | (inl e, w') => (inl e, w')
  end.

(** [try: c  except Exception as e: h e] *)
Definition try_except {A} (c : M A) (h : exn -> M A) : M A := fun w =>
  match c w with
  | (inr a, w') => (inr a, w')
  | (inl e, w') => h e w'
  end.

(** [try: c  finally: f] *)
Definition try_finally {A} (c : M A) (f : M unit) : M A := fun w =>
  match c w with
  | (r, w') =>
      match f w' with
      | (inr _, w'') => (r, w'')
      | (inl e, w'') => (inl e, w'')
      end
  end.

Definition gets {A} (f : world -> A) : M A := fun w => (inr (f w), w).

Definition modify (f : world -> world) : M unit := fun w => (inr tt, f w).

#[global] Instance M_ret : MRet M := @ret.
#[global] Instance M_bind : MBind M := fun A B k c => bind c k.

(** ** The [os] and [time] calls of the service *)

Module OS.

Import Py.
Local Open Scope string_scope.

(** [posixpath.join(a, b)] *)
Definition path_join (a b : string) : string :=
  if startswith b "/" then b
  else if negb (truthy_str a) || str_in "/" (substring (String.length a - 1) 1 a)
       then a ++ b
       else a ++ "/" ++ b.

Section Dir.

(** The directory the world holds, [DOWNLOAD_DIR]. *)
Variable dir : string.

Definition entry_path (e : dirent) : string := path_join dir (d_name e).

Definition at_path (path : string) (e : dirent) : bool :=
  String.eqb (entry_path e) path.

Definition find_entry (path : string) (o : outside) : option dirent :=
  List.find (at_path path) (dir_entries o).

Definition enoent (path : string) : exn :=
  Exception ("[Errno 2] No such file or directory: '" ++ path ++ "'").

(** [os.listdir(path)] *)
Definition listdir (path : string) : M (list string) := fun w =>
  if String.eqb path dir then
    match listdir_error (env w) with
    | Some msg => (inl (Exception msg), w)
    | None => (inr (List.map d_name (dir_entries (env w))), w)
    end
  else (inl (enoent path), w).

(** [os.path.isfile(path)]: never raises. *)
Definition path_isfile (path : string) : M bool := fun w =>
  match find_entry path (env w) with
  | Some e => (inr (d_isfile e), w)
  | None => (inr false, w)
  end.

(** [os.path.getsize(path)] *)
Definition path_getsize (path : string) : M Z := fun w =>
  match find_entry path (env w) with
  | Some e =>
      match d_getsize e with
      | inr n => (inr n, w)
      | inl msg => (inl (Exception msg), w)
      end
  | None => (inl (enoent path), w)
  end.

(** [os.path.getmtime(path)] *)
Definition path_getmtime (path : string) : M Q := fun w =>
  match find_entry path (env w) with
  | Some e =>
      match d_getmtime e with
      | inr t => (inr t, w)
      | inl msg => (inl (Exception msg), w)
      end
  | None => (inl (enoent path), w)
  end.

(** [os.unlink(path)] *)
Definition unlink (path : string) : M unit := fun w =>
  match find_entry path (env w) with
  | Some e =>
      match d_unlink e with
      | None =>
          (inr tt,
           with_env (fun o =>
             with_entries
               (List.filter (fun e' => negb (at_path path e')) (dir_entries o)) o) w)
      | Some msg => (inl (Exception msg), w)
      end
  | None => (inl (enoent path), w)
  end.

End Dir.

(** [time.time()] *)
Definition time_time : M Q := gets (fun w => clock (env w)).

(** [os.path.splitext(p)]: the extension starts at the last dot of the
    last path component, unless only dots precede it there. *)
Fixpoint rfind (c : ascii) (s : string) (i : Z) (found : Z) : Z :=
  match s with
  | EmptyString => found
  | String c' s' => rfind c s' (i + 1) (if Ascii.eqb c c' then i else found)
  end.

Fixpoint all_dots (s : string) : bool :=
  match s with
  | EmptyString => true
  | String c s' => Ascii.eqb c "."%char && all_dots s'
  end.

Definition path_splitext (p : string) : string * string :=
  let sepIndex := rfind "/"%char p 0 (-1) in
  let dotIndex := rfind "."%char p 0 (-1) in
  if (sepIndex <? dotIndex)%Z
     && negb (all_dots (substring (Z.to_nat (sepIndex + 1))
                                  (Z.to_nat (dotIndex - sepIndex - 1)) p))
  then (substring 0 (Z.to_nat dotIndex) p,
        substring (Z.to_nat dotIndex) (String.length p) p)
  else (p, "").

End OS.

(** ** Numbers as Python prints and rounds them *)

Module Num.

Import Py.
Local Open Scope string_scope.

Definition Qlt_bool (a b : Q) : bool := negb (Qle_bool b a).

(** [int(x)] for a float: truncation towards zero. *)
Definition int_of_float (x : Q) : Z :=
  if Qlt_bool x 0 then Qceiling x else Qfloor x.

(** Nearest integer, ties to the even one. *)
Definition round_half_even (x : Q) : Z :=
  let f := Qfloor x in
  let r := (x - inject_Z f)%Q in
  if Qlt_bool r (1 # 2) then f
  else if Qlt_bool (1 # 2) r then f + 1
  else if Z.even f then f else f + 1.

(** The integer part of the binary logarithm of a positive rational. *)
Definition Qlog2 (x : Q) : Z :=
  let k := (Z.log2 (Qnum x) - Z.log2 (Zpos (Qden x)))%Z in
  if Qle_bool (Qpower 2 k) x then k else (k - 1)%Z.

(** The binary64 number nearest to a positive rational, ties to the even
    significand: 53 significant bits, the exponent not below that of the
    subnormal numbers.  (No upper limit: the callers test for overflow.) *)
Definition fl64_pos (x : Q) : Q :=
  let e := Z.max (Qlog2 x - 52) (-1074) in
  (inject_Z (round_half_even (x / Qpower 2 e)) * Qpower 2 e)%Q.

(** The value a binary64 operation returns for the exact result [x]. *)
Definition fl64 (x : Q) : Q :=
  if Qlt_bool 0 x then fl64_pos x
  else if Qlt_bool x 0 then (- fl64_pos (- x))%Q
  else 0%Q.

(** [x * y] and [x / y] on floats. *)
Definition float_mul (x y : Q) : Q := fl64 (x * y).
Definition float_div (x y : Q) : Q := fl64 (x / y).

(** [a / b] on two ints: the quotient is rounded once; it is an error when
    [b] is 0 and when the result is beyond the finite floats. *)
Definition int_true_div (a b : Z) : string + Q :=
  if (b =? 0)%Z then inl "division by zero"
  else
    let q := fl64 (inject_Z a / inject_Z b) in
    if Qle_bool (Qpower 2 1024) (Qabs q)
    then inl "integer division result too large for a float"
    else inr q.

(** [time.time()] hands the clock over as a float. *)
Definition float_of_clock (t : Q) : Q := fl64 t.

(** [f"{x:.1f}"] *)
Definition format_1f (x : Q) : string :=
  let t := round_half_even (Qabs x * 10) in
  (if Qlt_bool x 0 then "-" else "")
  ++ str_of_int (t / 10) ++ "." ++ str_of_int (t mod 10).

(** [round(x, 2)] *)
Definition round2 (x : Q) : Q := Qmake (round_half_even (x * 100)) 100.

End Num.

(** ** The extraction engine, a collaborator *)

(** [yt_dlp.YoutubeDL(opts).extract_info(url, download=...)]: acts on the
    outside world only, and reports an info dictionary (or [None]) or
    fails with a message. *)
Definition engine : Type :=
  gmap string pyval -> string -> bool -> outside ->
  (string + option (gmap string pyval)) * outside.

Record DownloadResult := {
  r_filename : string;
  r_size_mb : Q;
  r_duration : pyval;
  r_title : pyval;
  r_format : string
}.

Record InfoResult := {
  i_title : pyval;
  i_duration : pyval;
  i_filesize : pyval;
  i_uploader : pyval;
  i_thumbnail : pyval;
  i_url : pyval
}.

Record DownloadRequest := {
  req_url : string;
  req_quality : string;
  req_filename : option string
}.

(** ** Core logic and endpoints *)

Section Service.

Import Py Num.
Local Open Scope string_scope.

Variable cfg : config.
Variable ydl : engine.

Definition extract_info (opts : gmap string pyval) (url : string) (download : bool)
  : M (option (gmap string pyval)) := fun w =>
  match ydl opts url download (env w) with
  | (inl msg, o) => (inl (Exception msg), with_env (fun _ => o) w)
  | (inr info, o) => (inr info, with_env (fun _ => o) w)
  end.

(** [info.get(k)]; on [None] the attribute lookup raises. *)
Definition info_get (info : option (gmap string pyval)) (k : string) : M pyval :=
  match info with
  | Some d => ret (dict_get d k)
  | None => raise (Exception "'NoneType' object has no attribute 'get'")
  end.

Definition info_opts : gmap string pyval :=
  <["quiet" := PBool true]>
  (<["no_warnings" := PBool true]>
  (<["skip_download" := PBool true]>
  (<["no_check_certificate" := PBool true]>
  (<["socket_timeout" := PInt 15]> ∅)))).

(** [a or b]: [b] is evaluated only when [a] is false. *)
Definition or_else (a b : M pyval) : M pyval :=
  x ← a; if truthy x then ret x else b.

Definition _extract_info (url : string) : M InfoResult :=
  info ← extract_info info_opts url false;
  title ← info_get info "title";
  duration ← info_get info "duration";
  filesize ← or_else (info_get info "filesize") (info_get info "filesize_approx");
  uploader ← info_get info "uploader";
  thumbnail ← info_get info "thumbnail";
  url ← or_else (info_get info "url") (info_get info "webpage_url");
  ret {| i_title := title;
         i_duration := duration;
         i_filesize := filesize;
         i_uploader := uploader;
         i_thumbnail := thumbnail;
         i_url := url |}.

Definition format_string (quality : string) : string :=
  "bestvideo[height=" ++ quality ++ "][ext=mp4][vcodec^=avc1]+bestaudio[ext=m4a]/"
  ++ "bestvideo[height<=" ++ quality ++ "][ext=mp4][vcodec^=avc1]+bestaudio[ext=m4a]/"
  ++ "bestvideo[height<=" ++ quality ++ "][ext=mp4]+bestaudio[ext=m4a]/"
  ++ "bestvideo[height<=" ++ quality ++ "]+bestaudio/"
  ++ "best[height<=" ++ quality ++ "][vcodec!*=none]".

Definition download_opts (quality filename : string) : gmap string pyval :=
  let output_template := OS.path_join (DOWNLOAD_DIR cfg) (filename ++ ".%(ext)s") in
  let opts : gmap string pyval :=
    <["format" := PStr (format_string quality)]>
    (<["outtmpl" := PStr output_template]>
    (<["noplaylist" := PBool true]>
    (<["no_warnings" := PBool true]>
    (<["no_check_certificate" := PBool true]>
    (<["socket_timeout" := PInt 30]>
    (<["retries" := PInt 5]>
    (<["fragment_retries" := PInt 5]>
    (<["merge_output_format" := PStr "mp4"]>
    (<["quiet" := PBool true]> ∅))))))))) in
  if (0 <? MAX_DURATION cfg)%Z
  then <["match_filter" := PStr ("duration <= " ++ str_of_int (MAX_DURATION cfg))]> opts
  else opts.

(** The loop over [os.listdir(DOWNLOAD_DIR)] that stops at the first name
    starting with [filename]. *)
Fixpoint find_output (names : list string) (filename : string) : option string :=
  match names with
  | [] => None
  | f :: names' => if startswith f filename then Some f else find_output names' filename
  end.

(** [if not filename: filename = f"video_{int(time.time() * 1000)}"]; the
    product is a float product. *)
Definition resolve_filename (filename : option string) : M string :=
  match filename with
  | Some f => if truthy_str f then ret f
              else now ← OS.time_time;
                   ret ("video_"
                        ++ str_of_int
                             (int_of_float (float_mul (float_of_clock now) 1000)))
  | None => now ← OS.time_time;
            ret ("video_"
                 ++ str_of_int (int_of_float (float_mul (float_of_clock now) 1000)))
  end.

Definition _download (url quality : string) (filename : option string)
  : M DownloadResult :=
  filename ← resolve_filename filename;
  info ← extract_info (download_opts quality filename) url true;
  names ← OS.listdir (DOWNLOAD_DIR cfg) (DOWNLOAD_DIR cfg);
  match find_output names filename with
  | None => raise (Exception "Download completed but output file not found")
  | Some actual_filename =>
      if negb (truthy_str actual_filename)
      then raise (Exception "Download completed but output file not found")
      else
        let filepath := OS.path_join (DOWNLOAD_DIR cfg) actual_filename in
        file_size ← OS.path_getsize (DOWNLOAD_DIR cfg) filepath;
        let file_size_mb := Qmake file_size 1048576 in
        if (file_size =? 0)%Z then
          OS.unlink (DOWNLOAD_DIR cfg) filepath ;;
          raise (Exception "Downloaded file is empty")
        else if Qlt_bool (inject_Z (MAX_FILE_SIZE_MB cfg)) file_size_mb then
          OS.unlink (DOWNLOAD_DIR cfg) filepath ;;
          raise (Exception ("FILE_TOO_LARGE:" ++ format_1f file_size_mb ++ "MB"))
        else
          let ext := upper (lstrip_dot (snd (OS.path_splitext actual_filename))) in
          duration ← info_get info "duration";
          title ← info_get info "title";
          ret {| r_filename := actual_filename;
                 r_size_mb := round2 file_size_mb;
                 r_duration := duration;
                 r_title := title;
                 r_format := if truthy_str ext then ext else "MP4" |}
  end.

(** [await asyncio.wait_for(semaphore.acquire(), timeout)] for a call that
    runs alone: a free slot is taken at once; with none free nobody
    releases one, and the wait ends after [timeout] seconds. *)
Definition wait_for_acquire (timeout : Q) : M unit := fun w =>
  if (0 <? semaphore w)%Z then
    (inr tt,
     emit EvAcquire
       {| env := env w; semaphore := semaphore w - 1;
          active_downloads := active_downloads w; trace := trace w |})
  else
    (inl TimeoutError,
     with_env (fun o => with_clock (clock o + timeout) o) w).

(** [semaphore.release()] *)
Definition semaphore_release : M unit := fun w =>
  (inr tt,
   emit EvRelease
     {| env := env w; semaphore := semaphore w + 1;
        active_downloads := active_downloads w; trace := trace w |}).

(** [active_downloads += d] *)
Definition add_active (d : Z) (ev : event) : M unit := fun w =>
  (inr tt,
   emit ev
     {| env := env w; semaphore := semaphore w;
        active_downloads := active_downloads w + d; trace := trace w |}).

(** [await asyncio.to_thread(job)] *)
Definition to_thread {A} (job : M A) : M A := modify (emit EvJob) ;; job.

Definition server_busy : string :=
  "SERVER_BUSY:Too many concurrent downloads. Try again later.".

(** [POST /info] *)
Definition get_info (url : string) : M InfoResult :=
  try_except (to_thread (_extract_info url))
    (fun e => raise (HTTPException 400 (_parse_error cfg (exn_str e)))).

(** [POST /download] *)
Definition download_video (req : DownloadRequest) : M DownloadResult :=
  try_except (wait_for_acquire 5)
    (fun e => match e with
              | TimeoutError => raise (HTTPException 429 server_busy)
              | _ => raise e
              end) ;;
  add_active 1 EvIncr ;;
  try_finally
    (try_except
       (to_thread (_download (req_url req) (req_quality req) (req_filename req)))
       (fun e => raise (HTTPException 400 (_parse_error cfg (exn_str e)))))
    (add_active (-1) EvDecr ;; semaphore_release).

(** ** Periodic cleanup *)

Definition _cleanup_file (now : Q) (f : string) : M unit :=
  let filepath := OS.path_join (DOWNLOAD_DIR cfg) f in
  try_except
    (isfile ← OS.path_isfile (DOWNLOAD_DIR cfg) filepath;
     if isfile : bool then
       mtime ← OS.path_getmtime (DOWNLOAD_DIR cfg) filepath;
       if Qlt_bool 600 (now - mtime) then OS.unlink (DOWNLOAD_DIR cfg) filepath
       else ret tt
     else ret tt)
    (fun _ => ret tt).

Fixpoint for_each (names : list string) (body : string -> M unit) : M unit :=
  match names with
  | [] => ret tt
  | f :: names' => body f ;; for_each names' body
  end.

Definition _cleanup_old_files : M unit :=
  now ← OS.time_time;
  names ← OS.listdir (DOWNLOAD_DIR cfg) (DOWNLOAD_DIR cfg);
  for_each names (_cleanup_file now).

(** [await asyncio.sleep(300)]: the coroutine is suspended; what the rest
    of the system does to the outside world meanwhile is [during]. *)
Definition asyncio_sleep (during : outside -> outside) : M unit :=
  modify (with_env during).

(** The first [length sleeps] rounds of [_cleanup_loop]'s [while True]. *)
Fixpoint _cleanup_loop (sleeps : list (outside -> outside)) : M unit :=
  match sleeps with
  | [] => ret tt
  | during :: sleeps' =>
      asyncio_sleep during ;;
      try_except _cleanup_old_files (fun _ => ret tt) ;;
      _cleanup_loop sleeps'
  end.

End Service.

(** ** Concurrent requests

    [download_video] is a coroutine: the event loop runs it in pieces, each
    piece up to the next [await], and interleaves the pieces of all pending
    requests.  A request is suspended in [wait_for(semaphore.acquire(), 5.0)]
    ([Waiting], since its arrival), has been handed a slot ([Holding]), has
    run [active_downloads += 1] and awaits its thread ([Running]), or has
    answered ([Done]).  A schedule is a list of labels; time passes by
    [Tick], which never steps over the 5-second timer of a waiting
    request. *)

Module Interleaving.

Inductive phase :=
| Waiting (since : Q)
| Holding
| Running
| Done (response : exn + DownloadResult).

Record server := {
  s_clock : Q;
  s_semaphore : Z;
  s_active : Z;
  s_tasks : list phase
}.

Inductive label :=
| Arrive
| Tick (d : Q)
| Grant (i : nat)
| Timeout (i : nat)
| Start (i : nat)
| Finish (i : nat) (outcome : exn + DownloadResult).

Definition is_waiting (p : phase) : bool :=
  match p with Waiting _ => true | _ => false end.
Definition is_holding (p : phase) : bool :=
  match p with Holding => true | _ => false end.
Definition is_running (p : phase) : bool :=
  match p with Running => true | _ => false end.
Definition is_done (p : phase) : bool :=
  match p with Done _ => true | _ => false end.

(** How many requests are in a phase. *)
Definition count (f : phase -> bool) (l : list phase) : Z :=
  Z.of_nat (length (List.filter f l)).

(** The timer of a waiting request has not yet been passed at time [c]. *)
Definition timer_ok (c : Q) (p : phase) : bool :=
  match p with
  | Waiting since => Qle_bool c (since + 5)
  | _ => true
  end.

Section Steps.

Variable cfg : config.

(** What the handler answers once [_download] has returned or raised. *)
Definition response (outcome : exn + DownloadResult) : exn + DownloadResult :=
  match outcome with
  | inr result => inr result
  | inl e => inl (HTTPException 400 (_parse_error cfg (exn_str e)))
  end.

Definition set_task (i : nat) (p : phase) (s : server) : server :=
  {| s_clock := s_clock s; s_semaphore := s_semaphore s;
     s_active := s_active s; s_tasks := <[i := p]> (s_tasks s) |}.

Definition step (l : label) (s : server) : option server :=
  match l with
  | Arrive =>
      Some {| s_clock := s_clock s; s_semaphore := s_semaphore s;
              s_active := s_active s;
              s_tasks := s_tasks s ++ [Waiting (s_clock s)] |}
  | Tick d =>
      if Qle_bool 0 d && forallb (timer_ok (s_clock s + d)) (s_tasks s)
      then Some {| s_clock := s_clock s + d; s_semaphore := s_semaphore s;
                   s_active := s_active s; s_tasks := s_tasks s |}
      else None
  | Grant i =>
      match s_tasks s !! i with
      | Some (Waiting _) =>
          if (0 <? s_semaphore s)%Z
          then Some {| s_clock := s_clock s; s_semaphore := s_semaphore s - 1;
                       s_active := s_active s;
                       s_tasks := <[i := Holding]> (s_tasks s) |}
          else None
      | _ => None
      end
  | Timeout i =>
      match s_tasks s !! i with
      | Some (Waiting since) =>
          if Qle_bool (since + 5) (s_clock s)
          then Some (set_task i (Done (inl (HTTPException 429 server_busy))) s)
          else None
      | _ => None
      end
  | Start i =>
      match s_tasks s !! i with
      | Some Holding =>
          Some {| s_clock := s_clock s; s_semaphore := s_semaphore s;
                  s_active := s_active s + 1;
                  s_tasks := <[i := Running]> (s_tasks s) |}
      | _ => None
      end
  | Finish i outcome =>
      match s_tasks s !! i with
      | Some Running =>
          Some {| s_clock := s_clock s; s_semaphore := s_semaphore s + 1;
                  s_active := s_active s - 1;
                  s_tasks := <[i := Done (response outcome)]> (s_tasks s) |}
      | _ => None
      end
  end.

Fixpoint run (ls : list label) (s : server) : option server :=
  match ls with
  | [] => Some s
  | l :: ls' =>
      match step l s with
      | Some s' => run ls' s'
      | None => None
      end
  end.

(** The process after start-up, at time [t]. *)
Definition init (t : Q) : server :=
  {| s_clock := t; s_semaphore := MAX_CONCURRENT cfg; s_active := 0; s_tasks := [] |}.

Definition reachable (s : server) : Prop :=
  exists t ls, run ls (init t) = Some s.

(** Every slot taken from the semaphore is held by one request that is
    [Holding] or [Running]; the counter counts the [Running] ones; no
    waiting request has waited more than 5 seconds. *)
Record inv (s : server) : Prop := {
  inv_sem : 0 <= s_semaphore s;
  inv_active : s_active s = count is_running (s_tasks s);
  inv_slots :
    s_semaphore s + count is_holding (s_tasks s) + count is_running (s_tasks s)
    = MAX_CONCURRENT cfg;
  inv_timers : forallb (timer_ok (s_clock s)) (s_tasks s) = true
}.

End Steps.

End Interleaving.

(** ** The handler on the event loop

    The pieces of [download_video] between its [await]s, run by the event
    loop on the state the requests share: the semaphore, the counter and
    the outside world.  [Grant] runs the piece up to the return of
    [wait_for] for a request that finds a slot, [Timeout] the piece that
    [wait_for] enters when its 5 seconds have passed, [Start] the piece up
    to [await asyncio.to_thread], and [Finish] the rest, the job, the
    [except] and the [finally] (the job touches the outside world only, and
    is taken as one step at the time its thread ends). *)

Module EventLoop.

Inductive action :=
| Arrive (req : DownloadRequest)
| Tick (d : Q)
| Grant (i : nat)
| Timeout (i : nat)
| Start (i : nat)
| Finish (i : nat).

Record system := {
  loop_time : Q;
  shared : world;
  requests : list (DownloadRequest * Interleaving.phase)
}.

Section Pieces.

Variable cfg : config.
Variable ydl : engine.

(** [except asyncio.TimeoutError: raise HTTPException(429, ...)] *)
Definition on_timeout (e : exn) : M unit :=
  match e with
  | TimeoutError => raise (HTTPException 429 server_busy)
  | _ => raise e
  end.

(** The [try] around [wait_for]. *)
Definition admission : M unit := try_except (wait_for_acquire 5) on_timeout.

(** [active_downloads += 1] *)
Definition counted : M unit := add_active 1 EvIncr.

(** The [try], its [except] and its [finally]. *)
Definition job_and_finally (req : DownloadRequest) : M DownloadResult :=
  try_finally
    (try_except
       (to_thread (_download cfg ydl (req_url req) (req_quality req) (req_filename req)))
       (fun e => raise (HTTPException 400 (_parse_error cfg (exn_str e)))))
    (add_active (-1) EvDecr ;; semaphore_release).

Definition set_request (i : nat) (req : DownloadRequest) (p : Interleaving.phase)
           (w : world) (st : system) : system :=
  {| loop_time := loop_time st; shared := w;
     requests := <[i := (req, p)]> (requests st) |}.

Definition act (a : action) (st : system) : option system :=
  match a with
  | Arrive req =>
      Some {| loop_time := loop_time st; shared := shared st;
              requests := requests st ++ [(req, Interleaving.Waiting (loop_time st))] |}
  | Tick d =>
      if Qle_bool 0 d
         && forallb (Interleaving.timer_ok (loop_time st + d)) (snd <$> requests st)
      then Some {| loop_time := loop_time st + d;
                   shared := with_env (fun o => with_clock (clock o + d) o) (shared st);
                   requests := requests st |}
      else None
  | Grant i =>
      match requests st !! i with
      | Some (req, Interleaving.Waiting _) =>
          if (0 <? semaphore (shared st))%Z then
            match admission (shared st) with
            | (inr _, w) => Some (set_request i req Interleaving.Holding w st)
            | (inl _, _) => None
            end
          else None
      | _ => None
      end
  | Timeout i =>
      match requests st !! i with
      | Some (req, Interleaving.Waiting since) =>
          if Qle_bool (since + 5) (loop_time st) then
            match on_timeout TimeoutError (shared st) with
            | (inl e, w) => Some (set_request i req (Interleaving.Done (inl e)) w st)
            | (inr _, _) => None
            end
          else None
      | _ => None
      end
  | Start i =>
      match requests st !! i with
      | Some (req, Interleaving.Holding) =>
          match counted (shared st) with
          | (inr _, w) => Some (set_request i req Interleaving.Running w st)
          | (inl _, _) => None
          end
      | _ => None
      end
  | Finish i =>
      match requests st !! i with
      | Some (req, Interleaving.Running) =>
          match job_and_finally req (shared st) with
          | (r, w) => Some (set_request i req (Interleaving.Done r) w st)
          end
      | _ => None
      end
  end.

Fixpoint run (acts : list action) (st : system) : option system :=
  match acts with
  | [] => Some st
  | a :: acts' =>
      match act a st with
      | Some st' => run acts' st'
      | None => None
      end
  end.

(** The process after start-up, at loop time [t], in world [w]. *)
Definition boot (t : Q) (w : world) : system :=
  {| loop_time := t; shared := w; requests := [] |}.

(** What the interleaving of the phases sees of the system. *)
Definition view (st : system) : Interleaving.server :=
  {| Interleaving.s_clock := loop_time st;
     Interleaving.s_semaphore := semaphore (shared st);
     Interleaving.s_active := active_downloads (shared st);
     Interleaving.s_tasks := snd <$> requests st |}.

(** The label of an action: for [Finish], with what the job of the request
    gives in the shared world. *)
Definition label_of (a : action) (st : system) : Interleaving.label :=
  match a with
  | Arrive _ => Interleaving.Arrive
  | Tick d => Interleaving.Tick d
  | Grant i => Interleaving.Grant i
  | Timeout i => Interleaving.Timeout i
  | Start i => Interleaving.Start i
  | Finish i =>
      Interleaving.Finish i
        (match requests st !! i with
         | Some (req, _) =>
             fst (to_thread
                    (_download cfg ydl (req_url req) (req_quality req) (req_filename req))
                    (shared st))
         | None => inl TimeoutError
         end)
  end.

End Pieces.

End EventLoop.

(** ** Notions used in the statements *)

(** The substrings the rules of [_parse_error] look for. *)
Definition keywords : list string :=
  [ "duration"; "does not pass filter"; "private video"; "sign in";
    "copyright"; "blocked"; "age"; "confirm your age"; "unavailable";
    "not available"; "live"; "premieres"; "scheduled"; "members only";
    "unsupported url" ]%string.

(** The base name [_download] works with, at clock reading [now]. *)
Definition resolved_name (filename : option string) (now : Q) : string :=
  match filename with
  | Some (String c f) => String c f
  | _ => ("video_"
          ++ Py.str_of_int
               (Num.int_of_float (Num.float_mul (Num.float_of_clock now) 1000)))%string
  end.

(** The entry [_download] measures: the one the path of the first listed
    name with the prefix [filename] leads to. *)
Definition located_output (cfg : config) (o : outside) (filename : string)
  : option dirent :=
  match find_output (List.map d_name (dir_entries o)) filename with
  | Some actual_filename =>
      OS.find_entry (DOWNLOAD_DIR cfg)
        (OS.path_join (DOWNLOAD_DIR cfg) actual_filename) o
  | None => None
  end.

(** The directory without what lies at the path of [e]. *)
Definition without (cfg : config) (e : dirent) (l : list dirent) : list dirent :=
  List.filter
    (fun e' => negb (OS.at_path (DOWNLOAD_DIR cfg) (OS.entry_path (DOWNLOAD_DIR cfg) e) e'))
    l.

(** The world of a request that holds a slot, has counted itself and has
    handed its job to a thread; and the world after its [finally] block. *)
Definition admitted (w : world) : world :=
  {| env := env w; semaphore := semaphore w - 1;
     active_downloads := active_downloads w + 1;
     trace := trace w ++ [EvAcquire; EvIncr; EvJob] |}.

Definition released (w : world) : world :=
  {| env := env w; semaphore := semaphore w + 1;
     active_downloads := active_downloads w + -1;
     trace := trace w ++ [EvDecr; EvRelease] |}.

(** The entries one sweep at time [now] removes: regular files whose
    modification time can be read and lies more than 600 seconds back, and
    whose removal the operating system carries out. *)
Definition swept (now : Q) (e : dirent) : bool :=
  d_isfile e
  && match d_getmtime e with
     | inr mtime => Num.Qlt_bool 600 (now - mtime)
     | inl _ => false
     end
  && match d_unlink e with
     | None => true
     | Some _ => false
     end.

(** The world with the managed directory replaced. *)
Definition set_entries (l : list dirent) (w : world) : world :=
  with_env (with_entries l) w.

(** A computation that leaves the admission state alone. *)
Definition frames {A} (c : M A) : Prop :=
  forall w : world,
    semaphore (snd (c w)) = semaphore w
    /\ active_downloads (snd (c w)) = active_downloads w
    /\ trace (snd (c w)) = trace w.




(** ** Engines and worlds of the examples *)

Definition regular_file (name : string) (size : Z) (mtime : Q) : dirent :=
  {| d_name := name; d_isfile := true; d_getsize := inr size;
     d_getmtime := inr mtime; d_unlink := None |}.

(** An engine that knows the size only approximately and reports the exact
    one as 0, and the page address only as [webpage_url]. *)
Definition ydl_approx : engine := fun _ _ _ o =>
  (inr (Some (<["filesize" := PInt 0]>
             (<["filesize_approx" := PInt 1048576]>
             (<["url" := PStr ""]>
             (<["webpage_url" := PStr "https://example.com/v"]> ∅))))), o).

(** An engine that writes [name] with [size] bytes; the directory lists
    the new file first or last. *)
Definition ydl_writes (first : bool) (name : string) (size : Z) : engine :=
  fun _ _ _ o =>
  (inr (Some (<["title" := PStr "T"]> (<["duration" := PInt 12]> ∅))),
   with_entries
     (if first then regular_file name size (clock o) :: dir_entries o
      else dir_entries o ++ [regular_file name size (clock o)]) o).

(** An engine that finds its output already there and writes nothing. *)
Definition ydl_skips : engine := fun _ _ _ o =>
  (inr (Some (<["title" := PStr "T"]> (<["duration" := PInt 12]> ∅))), o).

(** An engine that fails. *)
Definition ydl_fails (msg : string) : engine := fun _ _ _ o => (inl msg, o).

Definition idle_world : world :=
  {| env := {| clock := 1000; dir_entries := []; listdir_error := None |};
     semaphore := 5; active_downloads := 0; trace := [] |}.

Definition busy_world : world :=
  {| env := {| clock := 1000; dir_entries := []; listdir_error := None |};
     semaphore := 0; active_downloads := 5; trace := [] |}.

(** A clock reading with a millisecond that no float holds exactly. *)
Definition millisecond_world : world :=
  {| env := {| clock := 1762214400001 # 1000; dir_entries := []; listdir_error := None |};
     semaphore := 5; active_downloads := 0; trace := [] |}.

(** A directory that already holds [clip10.mp4], of [size] bytes. *)
Definition clip10_world (size : Z) : world :=
  {| env := {| clock := 1000;
               dir_entries := [regular_file "clip10.mp4" size 900];
               listdir_error := None |};
     semaphore := 5; active_downloads := 0; trace := [] |}.

(** A directory that holds a file of another name before [clip10.mp4], of
    [size] bytes. *)
Definition crowded_world (size : Z) : world :=
  {| env := {| clock := 1000;
               dir_entries := [regular_file "notes.txt" 7 800;
                               regular_file "clip10.mp4" size 900];
               listdir_error := None |};
     semaphore := 5; active_downloads := 0; trace := [] |}.





(** A directory with a file aged 601 seconds, one aged 599 seconds, an old
    file that cannot be removed, one whose modification time cannot be
    read, and an old subdirectory; the clock reads 10000. *)
Definition sweep_world : world :=
  {| env :=
       {| clock := 10000;
          dir_entries :=
            [ {| d_name := "stuck.mp4"; d_isfile := true; d_getsize := inr 7;
                 d_getmtime := inr 100%Q;
                 d_unlink := Some "[Errno 13] Permission denied"%string |};
              regular_file "old.mp4" 7 9399;
              {| d_name := "gone.mp4"; d_isfile := true; d_getsize := inr 7;
                 d_getmtime := inl "[Errno 2] No such file or directory"%string;
                 d_unlink := None |};
              regular_file "fresh.mp4" 7 9401;
              {| d_name := "parts"; d_isfile := false; d_getsize := inr 4096;
                 d_getmtime := inr 100%Q;
                 d_unlink := Some "[Errno 21] Is a directory"%string |} ];
          listdir_error := None |};
     semaphore := 5; active_downloads := 0; trace := [] |}.

(** Two requests, the first of which fails in the engine. *)
Definition two_requests : list Interleaving.label :=
  [ Interleaving.Arrive; Interleaving.Arrive; Interleaving.Grant 0;
    Interleaving.Start 0; Interleaving.Grant 1;
    Interleaving.Finish 0 (inl (Exception "ERROR: Private video"%string));
    Interleaving.Start 1;
    Interleaving.Finish 1
      (inr {| r_filename := "clip1.mp4"; r_size_mb := 2; r_duration := PInt 12;
              r_title := PStr "T"; r_format := "MP4" |}) ].

(** A request that arrives when the only slot is taken, and waits. *)
Definition one_slot_config : config :=
  {| DOWNLOAD_DIR := "/downloads";
     MAX_CONCURRENT := 1;
     MAX_DURATION := 600;
     MAX_FILE_SIZE_MB := 100 |}.

Definition late_request : list Interleaving.label :=
  [ Interleaving.Arrive; Interleaving.Grant 0; Interleaving.Start 0;
    Interleaving.Tick 2; Interleaving.Arrive; Interleaving.Tick 5 ].


Definition clip1_request : DownloadRequest :=
  {| req_url := "https://example.com/v"; req_quality := "720";
     req_filename := Some "clip1"%string |}.

(** Unfolding of the computations' plumbing. *)
Ltac run_m :=
  cbv [mbind M_bind bind mret M_ret ret raise gets modify try_except try_finally].

(** ** Health check *)

Record HealthResult := {
  h_status : string;
  h_version : string;
  h_active_downloads : Z;
  h_max_concurrent : Z;
  h_disk_free_mb : Z
}.

(** [round(disk.free / 1024 / 1024)]: an int divided by an int, the float
    divided again, and the float rounded to the nearest int. *)
Definition free_megabytes (free : Z) : M Z :=
  match Num.int_true_div free 1024 with
  | inr kb => mret (Num.round_half_even (Num.float_div kb 1024))
  | inl msg => raise (Exception msg)
  end.

(** [GET /health].  [version] is [yt_dlp.version.__version__]; [disk] is
    what [shutil.disk_usage(DOWNLOAD_DIR).free] gives, the free bytes or the
    text of the exception it raises. *)
Definition health (cfg : config) (version : string) (disk : string + Z)
  : M HealthResult :=
  disk_free ← try_except
                 (match disk with
                  | inr free => free_megabytes free
                  | inl msg => raise (Exception msg)
                  end)
                 (fun _ => mret (-1));
  active ← gets active_downloads;
  mret {| h_status := "ok";
          h_version := version;
          h_active_downloads := active;
          h_max_concurrent := MAX_CONCURRENT cfg;
          h_disk_free_mb := disk_free |}.

(** ** Further notions used in the statements *)

(** The fixed answers of [_parse_error]. *)
Definition messages (cfg : config) : list string :=
  [ msg_duration cfg; msg_exceeds; msg_private; msg_copyright; msg_age;
    msg_unavailable; msg_live; msg_premiere; msg_members; msg_unsupported ].

(** The keywords of the rules tried before the age rule. *)
Definition keywords_before_age : list string :=
  [ "duration"; "does not pass filter"; "private video"; "sign in";
    "copyright"; "blocked" ]%string.

Definition is_digit (c : ascii) : bool :=
  Py.str_in (String c EmptyString) "0123456789".

Fixpoint all_digits (s : string) : bool :=
  match s with
  | EmptyString => true
  | String c s' => is_digit c && all_digits s'
  end.

(** An engine that reports no info dictionary. *)
Definition ydl_none : engine := fun _ _ _ o => (inr None, o).

(** A world whose directory holds [clip1.mp4] of exactly 100 MB, and one
    where it holds 3000 bytes. *)
Definition limit_world : world :=
  {| env := {| clock := 1000;
               dir_entries := [regular_file "clip1.mp4" 104857600 990];
               listdir_error := None |};
     semaphore := 5; active_downloads := 0; trace := [] |}.

Definition small_world : world :=
  {| env := {| clock := 1000;
               dir_entries := [regular_file "clip1.mp4" 3000 990];
               listdir_error := None |};
     semaphore := 5; active_downloads := 0; trace := [] |}.

Definition anonymous_request : DownloadRequest :=
  {| req_url := "https://example.com/v"; req_quality := "720";
     req_filename := None |}.

(** Events of one kind in a trace. *)
Definition is_event (e e' : event) : bool :=
  match e, e' with
  | EvAcquire, EvAcquire | EvIncr, EvIncr | EvJob, EvJob
  | EvDecr, EvDecr | EvRelease, EvRelease => true
  | _, _ => false
  end.

Definition occurrences (e : event) (t : list event) : Z :=
  Z.of_nat (length (List.filter (is_event e) t)).

(** The events account for the semaphore and the counter: every slot taken
    and not given back is held by a request that is about to count itself
    or runs, every increment not yet undone belongs to a request that runs,
    and a decrement and a release come together. *)
Definition ledger (cfg : config) (st : EventLoop.system) : Prop :=
  let t := trace (EventLoop.shared st) in
  let phases := snd <$> EventLoop.requests st in
  semaphore (EventLoop.shared st)
  = MAX_CONCURRENT cfg - occurrences EvAcquire t + occurrences EvRelease t
  /\ active_downloads (EventLoop.shared st) = occurrences EvIncr t - occurrences EvDecr t
  /\ occurrences EvAcquire t
     = occurrences EvIncr t + Interleaving.count Interleaving.is_holding phases
  /\ occurrences EvIncr t
     = occurrences EvDecr t + Interleaving.count Interleaving.is_running phases
  /\ occurrences EvDecr t = occurrences EvRelease t.

(** Two requests: the first is granted a slot, runs and answers; the second
    is granted one meanwhile and runs. *)
Definition two_downloads : list EventLoop.action :=
  [ EventLoop.Arrive clip1_request; EventLoop.Arrive anonymous_request;
    EventLoop.Grant 0; EventLoop.Start 0; EventLoop.Grant 1;
    EventLoop.Finish 0; EventLoop.Start 1 ].

(** All slots of the default configuration taken by running requests. *)
Definition five_running : list Interleaving.label :=
  [ Interleaving.Arrive; Interleaving.Arrive; Interleaving.Arrive;
    Interleaving.Arrive; Interleaving.Arrive; Interleaving.Arrive;
    Interleaving.Grant 0; Interleaving.Grant 1; Interleaving.Grant 2;
    Interleaving.Grant 3; Interleaving.Grant 4;
    Interleaving.Start 0; Interleaving.Start 1; Interleaving.Start 2;
    Interleaving.Start 3; Interleaving.Start 4 ].

(** [w'] differs from [w] at most by entries that are gone. *)
Definition shrunk (w w' : world) : Prop :=
  semaphore w' = semaphore w
  /\ active_downloads w' = active_downloads w
  /\ trace w' = trace w
  /\ clock (env w') = clock (env w)
  /\ listdir_error (env w') = listdir_error (env w)
  /\ List.incl (dir_entries (env w')) (dir_entries (env w)).


(** All five slots taken, a sixth request waiting. *)
Definition full_house : Interleaving.server :=
  {| Interleaving.s_clock := 0;
     Interleaving.s_semaphore := 0;
     Interleaving.s_active := 5;
     Interleaving.s_tasks :=
       [ Interleaving.Running; Interleaving.Running; Interleaving.Running;
         Interleaving.Running; Interleaving.Running; Interleaving.Waiting 0 ] |}.



(** * Properties *)

(** ** The primitives on examples *)

Example parse_error_private :
  _parse_error default_config "ERROR: [youtube] abc: Private video. Sign in"
  = "This video is private or requires login"%string.
Proof. reflexivity. Qed.

Example parse_error_duration :
  _parse_error default_config "video does not pass filter (duration <= 600), skipping"
  = "DURATION_TOO_LONG:over 10 minutes"%string.
Proof. reflexivity. Qed.

Example path_join_ex : OS.path_join "/downloads" "a.mp4" = "/downloads/a.mp4"%string.
Proof. reflexivity. Qed.

Example splitext_ex1 : OS.path_splitext "clip1.f137.mp4" = ("clip1.f137", ".mp4")%string.
Proof. reflexivity. Qed.

Example splitext_ex2 : OS.path_splitext ".hidden" = (".hidden", "")%string.
Proof. reflexivity. Qed.

Example format_1f_ex1 : Num.format_1f (157286400 # 1048576) = "150.0"%string.
Proof. reflexivity. Qed.

Example format_1f_ex2 : Num.format_1f (1 # 4) = "0.2"%string.
Proof. reflexivity. Qed.

Example format_1f_ex3 : Num.format_1f (3 # 4) = "0.8"%string.
Proof. reflexivity. Qed.

(** ** Substring search and case folding *)

Section StringFacts.

Import Py.
Local Open Scope string_scope.

Lemma prefix_empty (s : string) : String.prefix "" s = true.
Proof. destruct s; reflexivity. Qed.

Lemma prefix_append (n rest : string) : String.prefix n (n ++ rest) = true.
Proof.
  induction n as [|c n IH]; simpl.
  - apply prefix_empty.
  - destruct (ascii_dec c c); [exact IH | congruence].
Qed.

Lemma str_in_unfold (n h : string) :
  str_in n h =
  String.prefix n h
  || match h with EmptyString => false | String _ h' => str_in n h' end.
Proof. destruct h; reflexivity. Qed.

Lemma str_in_skip (n : string) (c : ascii) (h : string) :
  str_in n h = true -> str_in n (String c h) = true.
Proof. intros H. rewrite str_in_unfold, H. apply orb_true_r. Qed.

Lemma str_in_append_l (n pre h : string) :
  str_in n h = true -> str_in n (pre ++ h) = true.
Proof.
  intros H. induction pre as [|c pre IH]; simpl; [exact H|].
  apply str_in_skip, IH.
Qed.

Lemma str_in_infix (n pre post : string) : str_in n (pre ++ n ++ post) = true.
Proof.
  apply str_in_append_l. rewrite str_in_unfold, prefix_append. reflexivity.
Qed.

Lemma lower_append (a b : string) : lower (a ++ b) = lower a ++ lower b.
Proof. induction a as [|c a IH]; simpl; [reflexivity | now rewrite IH]. Qed.

End StringFacts.

(** ** Printed numbers *)

Section NumberFacts.

Import Py Num.
Local Open Scope string_scope.






Lemma prefix_cons (c d : ascii) (n h : string) :
  String.prefix (String c n) (String d h) = true -> c = d /\ String.prefix n h = true.
Proof. simpl. destruct (ascii_dec c d); [auto | discriminate]. Qed.





(** *** Rounding *)

Lemma Qlt_bool_iff (a b : Q) : Qlt_bool a b = true <-> (a < b)%Q.
Proof.
  unfold Qlt_bool. rewrite negb_true_iff. split.
  - intros H. apply Qnot_le_lt. intros Hle. apply Qle_bool_iff in Hle. congruence.
  - intros H. destruct (Qle_bool b a) eqn:E; [|reflexivity].
    apply Qle_bool_iff in E. exfalso. eapply Qlt_not_le; eauto.
Qed.

Lemma Qlt_bool_false (a b : Q) : Qlt_bool a b = false <-> (b <= a)%Q.
Proof.
  unfold Qlt_bool. rewrite negb_false_iff. apply Qle_bool_iff.
Qed.

Lemma round_half_even_near (x : Q) :
  (Qabs (x - inject_Z (round_half_even x)) <= 1 # 2)%Q.
Proof.
  unfold round_half_even.
  pose proof (Qfloor_le x) as Hlo. pose proof (Qlt_floor x) as Hhi.
  rewrite inject_Z_plus in Hhi. change (inject_Z 1) with 1%Q in Hhi.
  apply Qabs_Qle_condition.
  destruct (Qlt_bool (x - inject_Z (Qfloor x)) (1 # 2)) eqn:E1.
  - apply Qlt_bool_iff in E1. split; lra.
  - apply Qlt_bool_false in E1.
    destruct (Qlt_bool (1 # 2) (x - inject_Z (Qfloor x))) eqn:E2.
    + rewrite inject_Z_plus. change (inject_Z 1) with 1%Q. split; lra.
    + apply Qlt_bool_false in E2.
      destruct (Z.even (Qfloor x)); [|rewrite inject_Z_plus; change (inject_Z 1) with 1%Q];
        split; lra.
Qed.

Lemma round_half_even_nonneg (x : Q) : (0 <= x)%Q -> (0 <= round_half_even x)%Z.
Proof.
  intros H. unfold round_half_even.
  assert (0 <= Qfloor x)%Z.
  { change 0%Z with (Qfloor 0). apply Qfloor_resp_le, H. }
  destruct (Qlt_bool _ _); [lia|]. destruct (Qlt_bool _ _); [lia|].
  destruct (Z.even _); lia.
Qed.



End NumberFacts.

(** ** The error parser *)

Section ErrorParserFacts.

Import Py.
Local Open Scope string_scope.

Variable cfg : config.

Lemma parse_error_rule1 (text : string) :
  str_in "duration" (lower text) = true -> _parse_error cfg text = msg_duration cfg.
Proof. intros H. unfold _parse_error. rewrite H. reflexivity. Qed.

Lemma parse_error_rule2 (text : string) :
  str_in "duration" (lower text) = false ->
  str_in "does not pass filter" (lower text) = true ->
  _parse_error cfg text = msg_exceeds.
Proof. intros H1 H2. unfold _parse_error. rewrite H1, H2. reflexivity. Qed.

Lemma parse_error_rule3 (text : string) :
  str_in "duration" (lower text) = false ->
  str_in "does not pass filter" (lower text) = false ->
  str_in "private video" (lower text) = true ->
  _parse_error cfg text = msg_private.
Proof. intros H1 H2 H3. unfold _parse_error. rewrite H1, H2, H3. reflexivity. Qed.

Lemma parse_error_passthrough (text : string) :
  forallb (fun k => negb (str_in k (lower text))) keywords = true ->
  _parse_error cfg text = text.
Proof.
  unfold keywords. cbn [forallb]. intros H.
  repeat (apply andb_prop in H; destruct H as [?%negb_true_iff H]).
  unfold _parse_error.
  repeat match goal with E : str_in _ _ = false |- _ => rewrite E; clear E end.
  reflexivity.
Qed.

End ErrorParserFacts.

(** C3 (the code departs from the claim).  A failure text that mentions
    "duration" but not "does not pass filter", here the engine's complaint
    about a URL with a [duration] query parameter, is classified as
    [DURATION_TOO_LONG:over 10 minutes]: the first rule fires although only
    one of its two substrings is present. *)
Theorem parse_error_duration_without_filter :
  let text := "ERROR: Unsupported URL: https://example.com/watch?duration=30"%string in
  Py.str_in "duration" (Py.lower text) = true
  /\ Py.str_in "does not pass filter" (Py.lower text) = false
  /\ _parse_error default_config text = "DURATION_TOO_LONG:over 10 minutes"%string.
Proof. repeat split; reflexivity. Qed.

(** C4.  Whenever the lowercased text contains "duration" the classifier
    answers [DURATION_TOO_LONG:over <MAX_DURATION // 60> minutes], also for
    a text without "does not pass filter"; so the first rule fires in
    particular when both substrings are present, and the second rule's
    [DURATION_TOO_LONG:exceeds limit] is the answer whenever the text
    contains "does not pass filter" and not "duration". *)
Theorem parse_error_duration_rule (cfg : config) :
  (forall text : string,
     Py.str_in "duration" (Py.lower text) = true ->
     _parse_error cfg text
     = ("DURATION_TOO_LONG:over " ++ Py.str_of_int (MAX_DURATION cfg / 60) ++ " minutes")%string)
  /\ (exists text : string,
        Py.str_in "does not pass filter" (Py.lower text) = false
        /\ _parse_error cfg text = msg_duration cfg)
  /\ (forall text : string,
        Py.str_in "does not pass filter" (Py.lower text) = true ->
        Py.str_in "duration" (Py.lower text) = true ->
        _parse_error cfg text = msg_duration cfg)
  /\ (forall text : string,
        Py.str_in "does not pass filter" (Py.lower text) = true ->
        Py.str_in "duration" (Py.lower text) = false ->
        _parse_error cfg text = "DURATION_TOO_LONG:exceeds limit"%string).
Proof.
  split; [|split; [|split]].
  - intros text H. apply parse_error_rule1, H.
  - exists "Invalid Duration"%string. split; [reflexivity|].
    apply parse_error_rule1. reflexivity.
  - intros text _ H. apply parse_error_rule1, H.
  - intros text H1 H2. apply parse_error_rule2; assumption.
Qed.

Lemma parse_error_duration_rule_witness :
  _parse_error default_config "Video DURATION unknown"
  = "DURATION_TOO_LONG:over 10 minutes"%string
  /\ _parse_error default_config "clip does not pass filter (duration <= 600), skipping"
     = "DURATION_TOO_LONG:over 10 minutes"%string
  /\ _parse_error default_config "clip does not pass filter (view_count > 100), skipping"
     = "DURATION_TOO_LONG:exceeds limit"%string.
Proof.
  destruct (parse_error_duration_rule default_config) as (H1 & _ & H3 & H4).
  split; [|split].
  - apply (H1 "Video DURATION unknown"%string). reflexivity.
  - apply (H3 "clip does not pass filter (duration <= 600), skipping"%string);
      reflexivity.
  - apply (H4 "clip does not pass filter (view_count > 100), skipping"%string);
      reflexivity.
Defined.

(** C8, as the spec states it, fails: a text that contains "Private video"
    and also the filter phrase is answered by the duration rules, which
    come first. *)
Lemma parse_error_private_counterexample :
  let text := "Private video does not pass filter (duration <= 600), skipping"%string in
  Py.str_in "private video" (Py.lower text) = true
  /\ _parse_error default_config text <> msg_private.
Proof. split; [reflexivity | discriminate]. Qed.

(** C8, amended.  The classifier is a function of the text and of
    [MAX_DURATION] alone, and a text that contains "Private video" in any
    letter case, between any surroundings, is answered by the
    private-or-login message, provided its lowercased form contains neither
    "does not pass filter" nor "duration" (the rules tried before). *)
Theorem parse_error_private_video (cfg : config) (pre v post : string) :
  Py.lower v = "private video"%string ->
  Py.str_in "does not pass filter" (Py.lower (pre ++ v ++ post)) = false ->
  Py.str_in "duration" (Py.lower (pre ++ v ++ post)) = false ->
  _parse_error cfg (pre ++ v ++ post) = "This video is private or requires login"%string
  /\ forall cfg' : config,
       MAX_DURATION cfg' = MAX_DURATION cfg ->
       forall text : string, _parse_error cfg' text = _parse_error cfg text.
Proof.
  intros Hv Hf Hd. split.
  - apply parse_error_rule3; try assumption.
    rewrite !lower_append, Hv. apply str_in_infix.
  - intros cfg' E text. unfold _parse_error, msg_duration. rewrite E. reflexivity.
Qed.

Lemma parse_error_private_video_witness :
  _parse_error default_config "ERROR: [youtube] dQw4: PRIVATE Video. Join to watch"
  = "This video is private or requires login"%string.
Proof.
  apply (parse_error_private_video default_config
           "ERROR: [youtube] dQw4: " "PRIVATE Video" ". Join to watch");
    reflexivity.
Defined.

(** ** Info lookup *)

Section InfoFacts.

Import Py.
Local Open Scope string_scope.

Variable ydl : engine.

Lemma extract_info_run (url : string) (w : world)
      (d : gmap string pyval) (o : outside) :
  ydl info_opts url false (env w) = (inr (Some d), o) ->
  _extract_info ydl url w =
  (inr {| i_title := dict_get d "title";
          i_duration := dict_get d "duration";
          i_filesize := py_or (dict_get d "filesize") (dict_get d "filesize_approx");
          i_uploader := dict_get d "uploader";
          i_thumbnail := dict_get d "thumbnail";
          i_url := py_or (dict_get d "url") (dict_get d "webpage_url") |},
   with_env (fun _ => o) w).
Proof.
  intros H. unfold _extract_info, extract_info, or_else, info_get, py_or. run_m.
  rewrite H.
  destruct (truthy (dict_get d "filesize")), (truthy (dict_get d "url")); reflexivity.
Qed.

End InfoFacts.

(** C9.  When the engine reports an info dictionary [d], the result's
    [filesize] is [d]'s exact filesize if that is a non-zero number and
    otherwise (missing, [None] or 0) [d]'s approximate filesize, and the
    result's [url] is [d]'s url if that is a non-empty string and otherwise
    (missing, [None] or empty) [d]'s webpage_url: the fallback goes by truth
    value, not by absence. *)
Theorem extract_info_fallback_by_truthiness
    (ydl : engine) (url : string) (w : world) (d : gmap string pyval) (o : outside) :
  ydl info_opts url false (env w) = (inr (Some d), o) ->
  exists r : InfoResult,
    _extract_info ydl url w = (inr r, with_env (fun _ => o) w)
    /\ (forall n : Z, d !! "filesize"%string = Some (PInt n) -> n <> 0 ->
        i_filesize r = PInt n)
    /\ (d !! "filesize"%string = None \/ d !! "filesize"%string = Some PNone
        \/ d !! "filesize"%string = Some (PInt 0) ->
        i_filesize r = dict_get d "filesize_approx")
    /\ (forall s : string, d !! "url"%string = Some (PStr s) -> s <> ""%string ->
        i_url r = PStr s)
    /\ (d !! "url"%string = None \/ d !! "url"%string = Some PNone
        \/ d !! "url"%string = Some (PStr "") ->
        i_url r = dict_get d "webpage_url").
Proof.
  intros H. eexists. split; [apply extract_info_run, H|]. cbn [i_filesize i_url].
  unfold py_or, dict_get. repeat split.
  - intros n E Hn. rewrite E. cbn. destruct (Z.eqb_spec n 0); [contradiction | reflexivity].
  - intros [E | [E | E]]; rewrite E; reflexivity.
  - intros s E Hs. rewrite E. cbn. destruct s; [contradiction | reflexivity].
  - intros [E | [E | E]]; rewrite E; reflexivity.
Qed.

Lemma extract_info_fallback_by_truthiness_witness :
  exists r : InfoResult,
    fst (_extract_info ydl_approx "https://example.com/v" idle_world) = inr r
    /\ i_filesize r = PInt 1048576
    /\ i_url r = PStr "https://example.com/v".
Proof.
  destruct (extract_info_fallback_by_truthiness ydl_approx "https://example.com/v"
              idle_world _ _ eq_refl) as (r & E & _ & Hsize & _ & Hurl).
  exists r. rewrite E. split; [reflexivity|]. split.
  - rewrite Hsize; [reflexivity | right; right; reflexivity].
  - rewrite Hurl; [reflexivity | right; right; reflexivity].
Defined.

(** ** The download job and its handler *)

Section DownloadFacts.

Import Py Num.
Local Open Scope string_scope.

Variable cfg : config.
Variable ydl : engine.

Lemma resolve_filename_run (filename : option string) (w : world) :
  resolve_filename filename w = (inr (resolved_name filename (clock (env w))), w).
Proof. destruct filename as [[|c f]|]; reflexivity. Qed.

Lemma resolved_name_truthy (filename : option string) (now : Q) :
  truthy_str (resolved_name filename now) = true.
Proof. destruct filename as [[|c f]|]; reflexivity. Qed.

Lemma find_output_some (names : list string) (filename actual : string) :
  find_output names filename = Some actual ->
  startswith actual filename = true /\ In actual names.
Proof.
  induction names as [|f names IH]; simpl; [discriminate|].
  destruct (startswith f filename) eqn:E.
  - intros [= <-]. auto.
  - intros H. destruct (IH H). auto.
Qed.

Lemma startswith_truthy (s p : string) :
  startswith s p = true -> truthy_str p = true -> truthy_str s = true.
Proof. destruct p; [discriminate|]. destruct s; [discriminate | reflexivity]. Qed.

Lemma find_entry_path (path : string) (o : outside) (e : dirent) :
  OS.find_entry (DOWNLOAD_DIR cfg) path o = Some e ->
  OS.entry_path (DOWNLOAD_DIR cfg) e = path /\ In e (dir_entries o).
Proof.
  unfold OS.find_entry. intros H. apply List.find_some in H as [Hin H].
  unfold OS.at_path in H. apply String.eqb_eq in H. auto.
Qed.

(** What [_download] does once the engine has returned, the directory has
    been listed and the located entry has been measured. *)
Lemma download_measured (url quality : string) (filename : option string) (w : world)
      (info : option (gmap string pyval)) (o : outside)
      (actual : string) (e : dirent) (size : Z) :
  let fname := resolved_name filename (clock (env w)) in
  ydl (download_opts cfg quality fname) url true (env w) = (inr info, o) ->
  listdir_error o = None ->
  find_output (List.map d_name (dir_entries o)) fname = Some actual ->
  OS.find_entry (DOWNLOAD_DIR cfg) (OS.path_join (DOWNLOAD_DIR cfg) actual) o = Some e ->
  d_getsize e = inr size ->
  _download cfg ydl url quality filename w =
  let removed := with_env (fun _ => with_entries (without cfg e (dir_entries o)) o) w in
  let kept := with_env (fun _ => o) w in
  if (size =? 0)%Z then
    match d_unlink e with
    | None => (inl (Exception "Downloaded file is empty"), removed)
    | Some msg => (inl (Exception msg), kept)
    end
  else if Qlt_bool (inject_Z (MAX_FILE_SIZE_MB cfg)) (Qmake size 1048576) then
    match d_unlink e with
    | None =>
        (inl (Exception ("FILE_TOO_LARGE:" ++ format_1f (Qmake size 1048576) ++ "MB")),
         removed)
    | Some msg => (inl (Exception msg), kept)
    end
  else
    let ext := upper (lstrip_dot (snd (OS.path_splitext actual))) in
    match info with
    | Some d =>
        (inr {| r_filename := actual;
                r_size_mb := round2 (Qmake size 1048576);
                r_duration := dict_get d "duration";
                r_title := dict_get d "title";
                r_format := if truthy_str ext then ext else "MP4" |}, kept)
    | None => (inl (Exception "'NoneType' object has no attribute 'get'"), kept)
    end.
Proof.
  intros fname Hydl Hlist Hfind Hent Hsize.
  destruct (find_output_some _ _ _ Hfind) as [Hpre _].
  pose proof (startswith_truthy _ _ Hpre (resolved_name_truthy _ _)) as Hact.
  destruct (find_entry_path _ _ _ Hent) as [Hpath _].
  unfold _download. run_m. rewrite resolve_filename_run. fold fname.
  unfold extract_info. rewrite Hydl.
  unfold OS.listdir. rewrite String.eqb_refl. cbn [env with_env]. rewrite Hlist, Hfind, Hact.
  cbn [negb]. unfold OS.path_getsize. cbn [env with_env]. rewrite Hent, Hsize.
  cbv beta iota. unfold without. rewrite Hpath.
  destruct (size =? 0)%Z; [|destruct (Qlt_bool _ _)].
  - unfold OS.unlink. cbn [env with_env]. rewrite Hent.
    destruct (d_unlink e); reflexivity.
  - unfold OS.unlink. cbn [env with_env]. rewrite Hent.
    destruct (d_unlink e); reflexivity.
  - destruct info; reflexivity.
Qed.

(** *** The admission state is left alone by the job *)

Lemma frames_ret {A} (a : A) : frames (mret a : M A).
Proof. intros w. repeat split. Qed.

Lemma frames_raise {A} (e : exn) : frames (raise e : M A).
Proof. intros w. repeat split. Qed.

Lemma frames_bind {A B} (c : M A) (k : A -> M B) :
  frames c -> (forall a, frames (k a)) -> frames (c ≫= k).
Proof.
  intros Hc Hk w. run_m. specialize (Hc w). destruct (c w) as [[e|a] w1]; [exact Hc|].
  cbn [snd] in Hc. destruct Hc as (H1 & H2 & H3).
  destruct (Hk a w1) as (K1 & K2 & K3). repeat split; congruence.
Qed.

Lemma frames_try_except {A} (c : M A) (h : exn -> M A) :
  frames c -> (forall e, frames (h e)) -> frames (try_except c h).
Proof.
  intros Hc Hh w. unfold try_except. specialize (Hc w).
  destruct (c w) as [[e|a] w1]; [|exact Hc].
  cbn [snd] in Hc. destruct Hc as (H1 & H2 & H3).
  destruct (Hh e w1) as (K1 & K2 & K3). repeat split; congruence.
Qed.

Lemma frames_time : frames OS.time_time.
Proof. intros w. repeat split. Qed.

Lemma frames_listdir (dir path : string) : frames (OS.listdir dir path).
Proof.
  intros w. unfold OS.listdir.
  destruct (String.eqb path dir), (listdir_error (env w)); repeat split.
Qed.

Lemma frames_isfile (dir path : string) : frames (OS.path_isfile dir path).
Proof.
  intros w. unfold OS.path_isfile. destruct (OS.find_entry dir path (env w)); repeat split.
Qed.

Lemma frames_getsize (dir path : string) : frames (OS.path_getsize dir path).
Proof.
  intros w. unfold OS.path_getsize.
  destruct (OS.find_entry dir path (env w)) as [e|]; [destruct (d_getsize e)|];
    repeat split.
Qed.

Lemma frames_getmtime (dir path : string) : frames (OS.path_getmtime dir path).
Proof.
  intros w. unfold OS.path_getmtime.
  destruct (OS.find_entry dir path (env w)) as [e|]; [destruct (d_getmtime e)|];
    repeat split.
Qed.

Lemma frames_unlink (dir path : string) : frames (OS.unlink dir path).
Proof.
  intros w. unfold OS.unlink.
  destruct (OS.find_entry dir path (env w)) as [e|]; [destruct (d_unlink e)|];
    repeat split.
Qed.

Lemma frames_extract_info (opts : gmap string pyval) (url : string) (dl : bool) :
  frames (extract_info ydl opts url dl).
Proof.
  intros w. unfold extract_info.
  destruct (ydl opts url dl (env w)) as [[msg|info] o]; repeat split.
Qed.

Lemma frames_info_get (info : option (gmap string pyval)) (k : string) :
  frames (info_get info k).
Proof. destruct info; [apply frames_ret | apply frames_raise]. Qed.

Lemma frames_resolve_filename (filename : option string) :
  frames (resolve_filename filename).
Proof. intros w. rewrite resolve_filename_run. repeat split. Qed.

Ltac frames_tac :=
  repeat first
    [ apply frames_ret | apply frames_raise | apply frames_time
    | apply frames_listdir | apply frames_isfile | apply frames_getsize
    | apply frames_getmtime | apply frames_unlink | apply frames_extract_info
    | apply frames_info_get | apply frames_resolve_filename
    | apply frames_try_except; [|intros ?]
    | apply frames_bind; [|intros ?]
    | match goal with
      | |- frames (match ?x with _ => _ end) => destruct x
      end ].

Lemma frames_download (url quality : string) (filename : option string) :
  frames (_download cfg ydl url quality filename).
Proof. unfold _download. frames_tac. Qed.

Lemma frames_extract (url : string) : frames (_extract_info ydl url).
Proof. unfold _extract_info, or_else. frames_tac. Qed.

(** *** The handler *)

Lemma download_video_granted (req : DownloadRequest) (w : world) :
  (0 < semaphore w)%Z ->
  download_video cfg ydl req w =
  (Interleaving.response cfg (fst (_download cfg ydl (req_url req) (req_quality req) (req_filename req)
                  (admitted w))),
   released (snd (_download cfg ydl (req_url req) (req_quality req) (req_filename req)
                    (admitted w)))).
Proof.
  intros H. apply Z.ltb_lt in H.
  unfold download_video, wait_for_acquire, add_active, to_thread, semaphore_release.
  run_m. rewrite H. cbn [emit env semaphore active_downloads trace].
  assert (E : emit EvJob (emit EvIncr
                {| env := env w; semaphore := semaphore w - 1;
                   active_downloads := active_downloads w + 1;
                   trace := (trace w ++ [EvAcquire])%list |}) = admitted w).
  { unfold emit, admitted. cbn [env semaphore active_downloads trace].
    rewrite <- !app_assoc. reflexivity. }
  rewrite E.
  destruct (_download cfg ydl _ _ _ (admitted w)) as [[e|r] w1];
    cbn [fst snd Interleaving.response]; unfold released, emit;
    cbn [env semaphore active_downloads trace]; rewrite <- app_assoc; reflexivity.
Qed.

Lemma download_video_denied (req : DownloadRequest) (w : world) :
  (semaphore w <= 0)%Z ->
  download_video cfg ydl req w =
  (inl (HTTPException 429 server_busy),
   with_env (fun o => with_clock (clock o + 5) o) w).
Proof.
  intros H. apply Z.ltb_ge in H.
  unfold download_video, wait_for_acquire. run_m. rewrite H. reflexivity.
Qed.

End DownloadFacts.

(** ** Size policy *)

Section PolicyFacts.

Import Py Num.
Local Open Scope string_scope.

Variable cfg : config.

Lemma parse_error_empty_file :
  _parse_error cfg "Downloaded file is empty" = "Downloaded file is empty".
Proof. reflexivity. Qed.


Variable ydl : engine.



(** A successful [_download] returns the first listed name with the
    prefix. *)
Lemma download_success_inv (url quality : string) (filename : option string)
      (w w' : world) (r : DownloadResult) :
  _download cfg ydl url quality filename w = (inr r, w') ->
  exists info o,
    ydl (download_opts cfg quality (resolved_name filename (clock (env w)))) url true (env w)
    = (inr info, o)
    /\ find_output (List.map d_name (dir_entries o))
         (resolved_name filename (clock (env w))) = Some (r_filename r).
Proof.
  unfold _download. run_m. rewrite resolve_filename_run.
  unfold extract_info.
  destruct (ydl _ url true (env w)) as [[msg|info] o]; [discriminate|].
  unfold OS.listdir. rewrite String.eqb_refl. cbn [env with_env].
  destruct (listdir_error o); [discriminate|].
  destruct (find_output _ _) as [actual|] eqn:F; [|discriminate].
  destruct (truthy_str actual); [|discriminate]. cbn [negb].
  destruct (OS.path_getsize _ _ _) as [[e|size] w1]; [discriminate|].
  destruct (size =? 0)%Z.
  { destruct (OS.unlink _ _ _) as [[?|?] ?]; discriminate. }
  destruct (Qlt_bool _ _).
  { destruct (OS.unlink _ _ _) as [[?|?] ?]; discriminate. }
  destruct info as [d|]; [|discriminate]. cbn.
  intros [= <- _]. exists (Some d), o. split; [reflexivity | exact F].
Qed.

Lemma download_video_success_inv (req : DownloadRequest) (w w' : world)
      (r : DownloadResult) :
  download_video cfg ydl req w = (inr r, w') ->
  (0 < semaphore w)%Z
  /\ _download cfg ydl (req_url req) (req_quality req) (req_filename req) (admitted w)
     = (inr r, snd (_download cfg ydl (req_url req) (req_quality req) (req_filename req)
                      (admitted w))).
Proof.
  intros H. destruct (Z.lt_ge_cases 0 (semaphore w)) as [Hs|Hs].
  - split; [exact Hs|]. rewrite (download_video_granted cfg ydl req w Hs) in H.
    destruct (_download cfg ydl _ _ _ (admitted w)) as [[e|r'] w1]; cbn in H |- *.
    + discriminate.
    + congruence.
  - rewrite (download_video_denied cfg ydl req w Hs) in H. discriminate.
Qed.

End PolicyFacts.








(** ** Locating the output file *)

Section OutputFacts.

Import Py.

(** The loop over the listing stops at the first name with the prefix:
    names before it that lack the prefix are passed over. *)
Lemma find_output_first (pre post : list string) (actual filename : string) :
  Forall (fun f => startswith f filename = false) pre ->
  startswith actual filename = true ->
  find_output (pre ++ actual :: post) filename = Some actual.
Proof.
  intros Hpre Hact. induction Hpre as [|f pre Hf _ IH]; simpl.
  - rewrite Hact. reflexivity.
  - rewrite Hf. exact IH.
Qed.

Lemma find_output_split (names : list string) (actual filename : string) :
  find_output names filename = Some actual ->
  exists pre post : list string,
    names = (pre ++ actual :: post)%list
    /\ Forall (fun f => startswith f filename = false) pre
    /\ startswith actual filename = true.
Proof.
  induction names as [|f names IH]; simpl; [discriminate|].
  destruct (startswith f filename) eqn:E.
  - intros [= <-]. exists [], names. auto.
  - intros H. destruct (IH H) as (pre & post & -> & Hpre & Hact).
    exists (f :: pre), post. auto.
Qed.

End OutputFacts.

(** C10.  A successful download returns the first name of the directory
    listing that starts with the resolved base filename: the listing, as it
    is once the engine has returned, is some names without that prefix, then
    the returned name, which has it, then the rest.  And so the other way
    round: whatever names without the prefix come first, the first name with
    it is the one measured and, its file being neither empty nor over the
    limit, returned.  With several names with the prefix the listing order
    decides: beside a [clip10.mp4] that was there before, a request for
    [clip1] returns [clip10.mp4] when that is listed before the [clip1.mp4] the
    engine wrote, also when a file of another name is listed before both,
    and [clip1.mp4] when the order is the other way round; and when the older
    file is empty it is the one removed, the job failing though the engine's
    file is in place. *)
Theorem download_output_first_listed :
  (forall (cfg : config) (ydl : engine) (req : DownloadRequest) (w w' : world)
          (r : DownloadResult),
     download_video cfg ydl req w = (inr r, w') ->
     let fname := resolved_name (req_filename req) (clock (env w)) in
     exists (info : option (gmap string pyval)) (o : outside) (pre post : list string),
       ydl (download_opts cfg (req_quality req) fname) (req_url req) true (env w)
       = (inr info, o)
       /\ List.map d_name (dir_entries o) = (pre ++ r_filename r :: post)%list
       /\ Forall (fun f => Py.startswith f fname = false) pre
       /\ Py.startswith (r_filename r) fname = true)
  /\ (forall (cfg : config) (ydl : engine) (req : DownloadRequest) (w : world)
             (d : gmap string pyval) (o : outside) (pre post : list string)
             (actual : string) (e : dirent) (size : Z),
        let fname := resolved_name (req_filename req) (clock (env w)) in
        0 < semaphore w ->
        ydl (download_opts cfg (req_quality req) fname) (req_url req) true (env w)
        = (inr (Some d), o) ->
        listdir_error o = None ->
        List.map d_name (dir_entries o) = (pre ++ actual :: post)%list ->
        Forall (fun f => Py.startswith f fname = false) pre ->
        Py.startswith actual fname = true ->
        OS.find_entry (DOWNLOAD_DIR cfg) (OS.path_join (DOWNLOAD_DIR cfg) actual) o
        = Some e ->
        d_getsize e = inr size ->
        size <> 0 ->
        (size # 1048576 <= inject_Z (MAX_FILE_SIZE_MB cfg))%Q ->
        exists (r : DownloadResult) (w' : world),
          download_video cfg ydl req w = (inr r, w')
          /\ r_filename r = actual
          /\ r_size_mb r = Num.round2 (size # 1048576))
  /\ (exists r w',
        download_video default_config (ydl_writes false "clip1.mp4" 2097152)
          clip1_request (clip10_world 5) = (inr r, w')
        /\ List.map d_name (dir_entries (env w')) = ["clip10.mp4"; "clip1.mp4"]%string
        /\ r_filename r = "clip10.mp4"%string
        /\ r_size_mb r = Num.round2 (5 # 1048576))
  /\ (exists r w',
        download_video default_config (ydl_writes false "clip1.mp4" 2097152)
          clip1_request (crowded_world 5) = (inr r, w')
        /\ List.map d_name (dir_entries (env w'))
           = ["notes.txt"; "clip10.mp4"; "clip1.mp4"]%string
        /\ r_filename r = "clip10.mp4"%string
        /\ r_size_mb r = Num.round2 (5 # 1048576))
  /\ (exists r w',
        download_video default_config (ydl_writes true "clip1.mp4" 2097152)
          clip1_request (clip10_world 5) = (inr r, w')
        /\ List.map d_name (dir_entries (env w')) = ["clip1.mp4"; "clip10.mp4"]%string
        /\ r_filename r = "clip1.mp4"%string
        /\ r_size_mb r = Num.round2 (2097152 # 1048576))
  /\ (exists w',
        download_video default_config (ydl_writes false "clip1.mp4" 2097152)
          clip1_request (crowded_world 0)
        = (inl (HTTPException 400 "Downloaded file is empty"), w')
        /\ List.map d_name (dir_entries (env w')) = ["notes.txt"; "clip1.mp4"]%string).
Proof.
  split; [|split; [|split; [|split; [|split]]]].
  - intros cfg ydl req w w' r H fname.
    apply download_video_success_inv in H as [_ H].
    apply download_success_inv in H as (info & o & Hydl & Hfind).
    apply find_output_split in Hfind as (pre & post & Hn & Hpre & Hact).
    exists info, o, pre, post. auto.
  - intros cfg ydl req w d o pre post actual e size fname Hs H Hl Hn Hpre Hact He Hsz Hne Hle.
    assert (Hf : find_output (List.map d_name (dir_entries o)) fname = Some actual).
    { rewrite Hn. apply find_output_first; assumption. }
    do 2 eexists. split.
    + rewrite (download_video_granted cfg ydl req w Hs).
      rewrite (download_measured cfg ydl _ _ _ (admitted w) (Some d) o actual e size
                 H Hl Hf He Hsz).
      cbn zeta.
      replace (size =? 0)%Z with false by (symmetry; apply Z.eqb_neq, Hne).
      replace (Num.Qlt_bool (inject_Z (MAX_FILE_SIZE_MB cfg)) (size # 1048576)) with false
        by (symmetry; apply Qlt_bool_false, Hle).
      reflexivity.
    + split; reflexivity.
  - do 2 eexists. split; [reflexivity|]. repeat split.
  - do 2 eexists. split; [reflexivity|]. repeat split.
  - do 2 eexists. split; [reflexivity|]. repeat split.
  - eexists. split; reflexivity.
Qed.

Lemma download_output_first_listed_witness :
  exists (r : DownloadResult) (w' : world),
    download_video default_config (ydl_writes false "clip1.mp4" 2097152) clip1_request
      (crowded_world 5) = (inr r, w')
    /\ r_filename r = "clip10.mp4"%string
    /\ r_size_mb r = Num.round2 (5 # 1048576).
Proof.
  destruct download_output_first_listed as (_ & H & _).
  apply (H default_config (ydl_writes false "clip1.mp4" 2097152) clip1_request
           (crowded_world 5)
           (<["title" := PStr "T"]> (<["duration" := PInt 12]> ∅))
           (with_entries
              [regular_file "notes.txt" 7 800; regular_file "clip10.mp4" 5 900;
               regular_file "clip1.mp4" 2097152 1000] (env (crowded_world 5)))
           ["notes.txt"%string] ["clip1.mp4"%string] "clip10.mp4"%string
           (regular_file "clip10.mp4" 5 900) 5).
  - reflexivity.
  - reflexivity.
  - reflexivity.
  - reflexivity.
  - repeat constructor.
  - reflexivity.
  - reflexivity.
  - reflexivity.
  - discriminate.
  - vm_compute. discriminate.
Defined.

(** ** The retention sweeper *)

Section SweeperFacts.

Variable cfg : config.

Local Abbreviation dir := (DOWNLOAD_DIR cfg).
Local Abbreviation path_of := (OS.entry_path (DOWNLOAD_DIR cfg)).

Lemma find_app_none {A} (f : A -> bool) (l1 l2 : list A) :
  (forall x, In x l1 -> f x = false) -> List.find f (l1 ++ l2) = List.find f l2.
Proof.
  induction l1 as [|a l1 IH]; intros H; [reflexivity|]. simpl.
  rewrite (H a (or_introl eq_refl)). apply IH. intros x Hx. apply H. right. exact Hx.
Qed.

Lemma filter_all {A} (f : A -> bool) (l : list A) :
  (forall x, In x l -> f x = true) -> List.filter f l = l.
Proof.
  induction l as [|a l IH]; intros H; [reflexivity|]. simpl.
  rewrite (H a (or_introl eq_refl)), IH; [reflexivity|].
  intros x Hx. apply H. right. exact Hx.
Qed.

Lemma at_path_self (e : dirent) : OS.at_path dir (path_of e) e = true.
Proof. apply String.eqb_refl. Qed.

Lemma at_path_other (e x : dirent) :
  path_of x <> path_of e -> OS.at_path dir (path_of e) x = false.
Proof. intros H. apply String.eqb_neq, H. Qed.

(** One round of the loop body on the entry under the cursor: the entries
    before it ([pre]) have other paths. *)
Lemma cleanup_file_step (now : Q) (pre post : list dirent) (e : dirent) (w : world) :
  dir_entries (env w) = pre ++ e :: post ->
  (forall x, In x (pre ++ post) -> path_of x <> path_of e) ->
  _cleanup_file cfg now (d_name e) w =
  (inr tt, if swept now e then set_entries (pre ++ post) w else w).
Proof.
  intros Hw Hother.
  assert (Hfind : OS.find_entry dir (path_of e) (env w) = Some e).
  { unfold OS.find_entry. rewrite Hw, find_app_none.
    - simpl. rewrite at_path_self. reflexivity.
    - intros x Hx. apply at_path_other, Hother, in_or_app. left. exact Hx. }
  unfold _cleanup_file, OS.path_isfile, OS.path_getmtime, OS.unlink, swept. run_m.
  fold (path_of e). rewrite Hfind.
  destruct (d_isfile e); [|reflexivity]. cbn [andb].
  rewrite Hfind.
  destruct (d_getmtime e) as [msg|mtime]; [reflexivity|].
  destruct (Num.Qlt_bool 600 (now - mtime)); [|reflexivity]. cbn [andb].
  rewrite Hfind.
  destruct (d_unlink e); [reflexivity|].
  unfold set_entries, with_env, with_entries. rewrite Hw. do 4 f_equal.
  rewrite List.filter_app. simpl. rewrite at_path_self. cbn [negb].
  rewrite <- List.filter_app. apply filter_all.
  intros x Hx. rewrite at_path_other; [reflexivity | apply Hother, Hx].
Qed.

Lemma set_entries_id (l : list dirent) (w : world) :
  dir_entries (env w) = l -> set_entries l w = w.
Proof. intros <-. destruct w as [[c l le] s a t]. reflexivity. Qed.

Lemma set_entries_twice (l1 l2 : list dirent) (w : world) :
  set_entries l2 (set_entries l1 w) = set_entries l2 w.
Proof. reflexivity. Qed.

Lemma other_paths (pre post : list dirent) (e : dirent) :
  List.NoDup (List.map path_of (pre ++ e :: post)) ->
  forall x, In x (pre ++ post) -> path_of x <> path_of e.
Proof.
  rewrite List.map_app. cbn [List.map]. intros H x Hx E.
  apply List.NoDup_remove_2 in H. apply H. rewrite <- List.map_app, <- E.
  apply List.in_map, Hx.
Qed.

(** The loop over the listing: [pre] has been dealt with, [post] is still
    to come. *)
Lemma for_each_sweep (now : Q) (post pre : list dirent) (w : world) :
  dir_entries (env w) = pre ++ post ->
  List.NoDup (List.map path_of (pre ++ post)) ->
  for_each (List.map d_name post) (_cleanup_file cfg now) w =
  (inr tt, set_entries (pre ++ List.filter (fun e => negb (swept now e)) post) w).
Proof.
  revert pre w. induction post as [|e post IH]; intros pre w Hw Hnd.
  - cbn. rewrite set_entries_id; [reflexivity | exact Hw].
  - cbn [List.map for_each]. run_m.
    rewrite (cleanup_file_step now pre post e w Hw (other_paths pre post e Hnd)).
    cbn [List.filter]. destruct (swept now e) eqn:S; cbn [negb].
    + rewrite (IH pre (set_entries (pre ++ post) w)).
      * reflexivity.
      * reflexivity.
      * rewrite List.map_app in Hnd |- *. cbn [List.map] in Hnd.
        apply List.NoDup_remove_1 in Hnd. exact Hnd.
    + rewrite (IH (pre ++ [e]) w).
      * rewrite <- List.app_assoc. reflexivity.
      * rewrite <- List.app_assoc. exact Hw.
      * rewrite <- List.app_assoc. exact Hnd.
Qed.

Lemma cleanup_old_files_run (w : world) :
  listdir_error (env w) = None ->
  List.NoDup (List.map path_of (dir_entries (env w))) ->
  _cleanup_old_files cfg w =
  (inr tt,
   set_entries
     (List.filter (fun e => negb (swept (clock (env w)) e)) (dir_entries (env w))) w).
Proof.
  intros Hl Hnd. unfold _cleanup_old_files, OS.time_time, OS.listdir. run_m.
  rewrite String.eqb_refl, Hl.
  apply (for_each_sweep (clock (env w)) (dir_entries (env w)) [] w eq_refl Hnd).
Qed.

Lemma cleanup_old_files_listdir_fails (w : world) (msg : string) :
  listdir_error (env w) = Some msg ->
  _cleanup_old_files cfg w = (inl (Exception msg), w).
Proof.
  intros Hl. unfold _cleanup_old_files, OS.time_time, OS.listdir. run_m.
  rewrite String.eqb_refl, Hl. reflexivity.
Qed.

Lemma path_injective (l : list dirent) (x y : dirent) :
  List.NoDup (List.map path_of l) -> In x l -> In y l -> path_of x = path_of y -> x = y.
Proof.
  induction l as [|a l IH]; [contradiction|]. cbn [List.map].
  intros Hnd Hx Hy E. apply List.NoDup_cons_iff in Hnd as [Ha Hnd].
  destruct Hx as [<-|Hx], Hy as [<-|Hy]; auto.
  - exfalso. apply Ha. rewrite E. apply List.in_map, Hy.
  - exfalso. apply Ha. rewrite <- E. apply List.in_map, Hx.
Qed.

Lemma cleanup_loop_total (sleeps : list (outside -> outside)) (w : world) :
  fst (_cleanup_loop cfg sleeps w) = inr tt.
Proof.
  revert w. induction sleeps as [|during sleeps IH]; intros w; [reflexivity|].
  cbn [_cleanup_loop]. unfold asyncio_sleep. run_m.
  destruct (_cleanup_old_files cfg (with_env during w)) as [[e|[]] w1]; apply IH.
Qed.

Lemma cleanup_loop_after_failure (during : outside -> outside)
      (sleeps : list (outside -> outside)) (w : world) (msg : string) :
  listdir_error (during (env w)) = Some msg ->
  _cleanup_loop cfg (during :: sleeps) w = _cleanup_loop cfg sleeps (with_env during w).
Proof.
  intros Hl. cbn [_cleanup_loop]. unfold asyncio_sleep. run_m.
  rewrite (cleanup_old_files_listdir_fails (with_env during w) msg Hl). reflexivity.
Qed.

Lemma cleanup_loop_after_cycle (during : outside -> outside)
      (sleeps : list (outside -> outside)) (w : world) :
  _cleanup_loop cfg (during :: sleeps) w
  = _cleanup_loop cfg sleeps (snd (_cleanup_old_files cfg (with_env during w))).
Proof.
  cbn [_cleanup_loop]. unfold asyncio_sleep. run_m.
  destruct (_cleanup_old_files cfg (with_env during w)) as [[e|[]] w1]; reflexivity.
Qed.

End SweeperFacts.

(** C7.  One sweep of a directory whose entries have distinct paths and
    that can be listed removes exactly the entries that are regular files
    with a modification time more than 600 seconds before the clock reading
    taken at the start, unless reading the time or removing the file fails
    for that entry, in which case it stays; every other entry stays as it
    is, whatever happened to the entries before it.  Every round of the loop
    is a sleep followed by one such sweep of the directory as it is after
    the sleep, and the next round starts from what the sweep left; the loop
    never raises, and after a sweep that failed it goes on to the next
    one. *)
Theorem cleanup_sweeps_old_files (cfg : config) :
  (forall w : world,
     listdir_error (env w) = None ->
     List.NoDup (List.map (OS.entry_path (DOWNLOAD_DIR cfg)) (dir_entries (env w))) ->
     exists w' : world,
       _cleanup_old_files cfg w = (inr tt, w')
       /\ forall e : dirent,
            In e (dir_entries (env w)) ->
            let deleted :=
              ~ In (OS.entry_path (DOWNLOAD_DIR cfg) e)
                   (List.map (OS.entry_path (DOWNLOAD_DIR cfg)) (dir_entries (env w'))) in
            (forall mtime : Q,
               d_getmtime e = inr mtime -> d_unlink e = None ->
               (deleted <-> d_isfile e = true /\ (600 < clock (env w) - mtime)%Q))
            /\ ((exists msg, d_getmtime e = inl msg) \/ (exists msg, d_unlink e = Some msg) ->
                In e (dir_entries (env w')))
            /\ (deleted \/ In e (dir_entries (env w'))))
  /\ (forall (sleeps : list (outside -> outside)) (w : world),
        fst (_cleanup_loop cfg sleeps w) = inr tt)
  /\ (forall (during : outside -> outside) (sleeps : list (outside -> outside))
             (w : world) (msg : string),
        listdir_error (during (env w)) = Some msg ->
        fst (_cleanup_old_files cfg (with_env during w)) = inl (Exception msg)
        /\ _cleanup_loop cfg (during :: sleeps) w
           = _cleanup_loop cfg sleeps (with_env during w))
  /\ (forall (during : outside -> outside) (sleeps : list (outside -> outside))
             (w : world),
        _cleanup_loop cfg (during :: sleeps) w
        = _cleanup_loop cfg sleeps (snd (_cleanup_old_files cfg (with_env during w))))
  /\ (forall w : world, _cleanup_loop cfg [] w = (inr tt, w)).
Proof.
  split; [|split; [|split; [|split]]].
  - intros w Hl Hnd. eexists. split; [apply cleanup_old_files_run; assumption|].
    intros e He deleted. subst deleted.
    cbn [set_entries with_env with_entries env dir_entries].
    set (now := clock (env w)).
    set (after := List.filter (fun e => negb (swept now e)) (dir_entries (env w))).
    assert (Hkeep : swept now e = false -> In e after).
    { intros S. apply List.filter_In. rewrite S. auto. }
    assert (Hdel : swept now e = true ->
                   ~ In (OS.entry_path (DOWNLOAD_DIR cfg) e)
                        (List.map (OS.entry_path (DOWNLOAD_DIR cfg)) after)).
    { intros S Hin. apply List.in_map_iff in Hin as (x & E & Hx).
      apply List.filter_In in Hx as [Hx Sx].
      assert (x = e) by (eapply path_injective; eauto). subst x.
      rewrite S in Sx. discriminate. }
    split; [|split].
    + intros mtime Hm Hu. unfold swept in Hkeep, Hdel. rewrite Hm, Hu in Hkeep, Hdel.
      rewrite andb_true_r in Hkeep, Hdel. split.
      * intros Hgone. destruct (d_isfile e); cbn [andb] in Hkeep.
        -- split; [reflexivity|]. apply Qlt_bool_iff.
           destruct (Num.Qlt_bool 600 (now - mtime)); [reflexivity|].
           exfalso. apply Hgone, List.in_map, Hkeep. reflexivity.
        -- exfalso. apply Hgone, List.in_map, Hkeep. reflexivity.
      * intros [Hf Hold]. apply Hdel. rewrite Hf. apply Qlt_bool_iff, Hold.
    + intros [[msg Hm]|[msg Hu]]; apply Hkeep; unfold swept.
      * rewrite Hm, andb_false_r. reflexivity.
      * rewrite Hu, andb_false_r. reflexivity.
    + destruct (swept now e) eqn:S; [left; apply Hdel; reflexivity | right; apply Hkeep; reflexivity].
  - apply cleanup_loop_total.
  - intros during sleeps w msg Hl. split.
    + rewrite (cleanup_old_files_listdir_fails cfg (with_env during w) msg Hl). reflexivity.
    + apply (cleanup_loop_after_failure cfg during sleeps w msg Hl).
  - apply cleanup_loop_after_cycle.
  - reflexivity.
Qed.

Lemma cleanup_sweeps_old_files_witness :
  exists w' : world,
    _cleanup_loop default_config [fun o => with_clock (clock o + 300) o] sweep_world
    = (inr tt, w')
    /\ ~ In "/downloads/old.mp4"%string
         (List.map (OS.entry_path "/downloads") (dir_entries (env w')))
    /\ In {| d_name := "stuck.mp4"; d_isfile := true; d_getsize := inr 7;
            d_getmtime := inr 100%Q;
            d_unlink := Some "[Errno 13] Permission denied"%string |}
         (dir_entries (env w')).
Proof.
  destruct (cleanup_sweeps_old_files default_config) as (H & _ & _ & R & N).
  set (during := fun o => with_clock (clock o + 300) o).
  destruct (H (with_env during sweep_world) eq_refl) as (w' & E & Hall).
  { cbn. repeat (constructor;
                 [intros Hin; cbn in Hin;
                  repeat (destruct Hin as [Hin|Hin]; [discriminate|]); exact Hin|]).
    constructor. }
  exists w'. split; [|split].
  - rewrite (R during [] sweep_world), E. apply N.
  - destruct (Hall (regular_file "old.mp4" 7 9399)) as (Hiff & _ & _).
    { cbn. right. left. reflexivity. }
    apply (Hiff 9399%Q eq_refl eq_refl). split; reflexivity.
  - match goal with
    | |- In ?e _ => destruct (Hall e) as (_ & Hstay & _)
    end.
    { cbn. left. reflexivity. }
    apply Hstay. right. eexists. reflexivity.
Defined.

(** ** Concurrent requests: the invariant *)

Module InterleavingFacts.

Import Interleaving.

Lemma count_cons (f : phase -> bool) (p : phase) (l : list phase) :
  count f (p :: l) = Z.b2z (f p) + count f l.
Proof.
  unfold count. cbn [List.filter]. destruct (f p); cbn [length Z.b2z]; lia.
Qed.

Lemma count_nonneg (f : phase -> bool) (l : list phase) : 0 <= count f l.
Proof. unfold count. lia. Qed.

Lemma count_app (f : phase -> bool) (l1 l2 : list phase) :
  count f (l1 ++ l2) = count f l1 + count f l2.
Proof.
  induction l1 as [|p l1 IH]; [unfold count; cbn; lia|].
  cbn [app]. rewrite !count_cons, IH. lia.
Qed.

Lemma count_insert (f : phase -> bool) (l : list phase) (i : nat) (p q : phase) :
  l !! i = Some p ->
  count f (<[i := q]> l) = count f l - Z.b2z (f p) + Z.b2z (f q).
Proof.
  revert i. induction l as [|a l IH]; intros [|i] H; try discriminate.
  - cbn in H. injection H as ->.
    change (<[0%nat := q]> (p :: l)) with (q :: l). rewrite !count_cons. lia.
  - cbn in H.
    change (<[S i := q]> (a :: l)) with (a :: <[i := q]> l).
    rewrite !count_cons, (IH i H). lia.
Qed.

Lemma count_all_done (f : phase -> bool) (l : list phase) :
  (forall p, is_done p = true -> f p = false) ->
  forallb is_done l = true -> count f l = 0.
Proof.
  intros Hf. induction l as [|p l IH]; [reflexivity|]. cbn [forallb].
  intros [Hp Hl]%andb_prop. rewrite count_cons, (Hf p Hp), (IH Hl). reflexivity.
Qed.

Section Invariant.

Variable cfg : config.

Lemma forallb_timer_insert (c : Q) (l : list phase) (i : nat) (q : phase) :
  forallb (timer_ok c) l = true -> timer_ok c q = true ->
  forallb (timer_ok c) (<[i := q]> l) = true.
Proof.
  intros Hl Hq. revert i. induction l as [|a l IH]; intros [|i]; try exact Hl.
  - cbn in Hl |- *. apply andb_prop in Hl as [_ Hl]. rewrite Hq, Hl. reflexivity.
  - cbn in Hl |- *. apply andb_prop in Hl as [Ha Hl]. rewrite Ha. apply IH, Hl.
Qed.

Lemma inv_init (t : Q) : 0 <= MAX_CONCURRENT cfg -> inv cfg (init cfg t).
Proof. intros H. split; cbn; try reflexivity; try lia. unfold count. cbn. lia. Qed.

Lemma inv_step (l : label) (s s' : server) :
  inv cfg s -> step cfg l s = Some s' -> inv cfg s'.
Proof.
  intros [Hsem Hact Hslots Htim] H. destruct l as [|d|i|i|i|i outcome]; cbn in H.
  - injection H as <-. split; cbn; try assumption.
    + rewrite count_app. unfold count at 2. cbn. lia.
    + rewrite !count_app. unfold count at 2 4. cbn. lia.
    + rewrite forallb_app, Htim. cbn. rewrite andb_true_r.
      apply Qle_bool_iff. lra.
  - destruct (Qle_bool 0 d && forallb _ _) eqn:G; [|discriminate].
    injection H as <-. apply andb_prop in G as [_ G]. split; cbn; assumption.
  - destruct (s_tasks s !! i) as [[since| | |r]|] eqn:T; try discriminate.
    destruct (0 <? s_semaphore s) eqn:G; [|discriminate]. apply Z.ltb_lt in G.
    injection H as <-. split; cbn.
    + lia.
    + rewrite (count_insert _ _ _ _ _ T). cbn. lia.
    + rewrite !(count_insert _ _ _ _ _ T). cbn. lia.
    + apply forallb_timer_insert; [assumption | reflexivity].
  - destruct (s_tasks s !! i) as [[since| | |r]|] eqn:T; try discriminate.
    destruct (Qle_bool _ _); [|discriminate].
    injection H as <-. split; cbn.
    + lia.
    + rewrite (count_insert _ _ _ _ _ T). cbn. lia.
    + rewrite !(count_insert _ _ _ _ _ T). cbn. lia.
    + apply forallb_timer_insert; [assumption | reflexivity].
  - destruct (s_tasks s !! i) as [[since| | |r]|] eqn:T; try discriminate.
    injection H as <-. split; cbn.
    + lia.
    + rewrite (count_insert _ _ _ _ _ T). cbn. lia.
    + rewrite !(count_insert _ _ _ _ _ T). cbn. lia.
    + apply forallb_timer_insert; [assumption | reflexivity].
  - destruct (s_tasks s !! i) as [[since| | |r]|] eqn:T; try discriminate.
    injection H as <-.
    pose proof (count_nonneg is_holding (s_tasks s)).
    split; cbn.
    + lia.
    + rewrite (count_insert _ _ _ _ _ T). cbn. lia.
    + rewrite !(count_insert _ _ _ _ _ T). cbn. lia.
    + apply forallb_timer_insert; [assumption | reflexivity].
Qed.

Lemma inv_run (ls : list label) (s s' : server) :
  inv cfg s -> run cfg ls s = Some s' -> inv cfg s'.
Proof.
  revert s. induction ls as [|l ls IH]; intros s Hs H; cbn in H.
  - injection H as <-. exact Hs.
  - destruct (step cfg l s) as [s1|] eqn:E; [|discriminate].
    eapply IH; [eapply inv_step|]; eauto.
Qed.

Lemma inv_reachable (s : server) :
  0 <= MAX_CONCURRENT cfg -> reachable cfg s -> inv cfg s.
Proof. intros H (t & ls & R). eapply inv_run; [apply inv_init, H | exact R]. Qed.

End Invariant.

End InterleavingFacts.

(** ** Admission *)

Section AdmissionFacts.

Import Interleaving.

Variable cfg : config.

Lemma forallb_lookup {A} (f : A -> bool) (l : list A) (i : nat) (x : A) :
  forallb f l = true -> l !! i = Some x -> f x = true.
Proof.
  revert i. induction l as [|a l IH]; intros [|i] H E; try discriminate;
    cbn in H, E; apply andb_prop in H as [Ha Hl].
  - injection E as <-. exact Ha.
  - eapply IH; eauto.
Qed.

Lemma lookup_insert_same {A} (l : list A) (i : nat) (x y : A) :
  l !! i = Some x -> <[i := y]> l !! i = Some y.
Proof.
  intros H. apply list_lookup_insert_eq. eapply lookup_lt_Some, H.
Qed.

(** One call of the handler, run alone. *)
Lemma download_video_balanced (ydl : engine) (req : DownloadRequest) (w : world) :
  let w' := snd (download_video cfg ydl req w) in
  semaphore w' = semaphore w
  /\ active_downloads w' = active_downloads w
  /\ (0 < semaphore w ->
      trace w' = trace w ++ [EvAcquire; EvIncr; EvJob; EvDecr; EvRelease])
  /\ (semaphore w <= 0 -> trace w' = trace w).
Proof.
  intros w'. subst w'. destruct (Z.lt_ge_cases 0 (semaphore w)) as [Hs|Hs].
  - rewrite (download_video_granted cfg ydl req w Hs). cbn [snd].
    destruct (frames_download cfg ydl (req_url req) (req_quality req) (req_filename req)
                (admitted w)) as (F1 & F2 & F3).
    unfold released. cbn [semaphore active_downloads trace].
    rewrite F1, F2, F3. cbn [admitted semaphore active_downloads trace].
    repeat split; try lia.
    intros _. rewrite <- List.app_assoc. reflexivity.
  - rewrite (download_video_denied cfg ydl req w Hs). cbn.
    repeat split; try reflexivity. lia.
Qed.

(** The handler run alone is one schedule of the interleaving. *)
Lemma download_video_alone_is_a_schedule
      (ydl : engine) (req : DownloadRequest) (w : world) :
  let s := {| s_clock := clock (env w); s_semaphore := semaphore w;
              s_active := active_downloads w; s_tasks := [] |} in
  let job := _download cfg ydl (req_url req) (req_quality req) (req_filename req)
               (admitted w) in
  let done := download_video cfg ydl req w in
  exists s' : server,
    run cfg (if 0 <? semaphore w
             then [Arrive; Grant 0; Start 0; Finish 0 (fst job)]
             else [Arrive; Tick 5; Timeout 0]) s = Some s'
    /\ s_semaphore s' = semaphore (snd done)
    /\ s_active s' = active_downloads (snd done)
    /\ s_tasks s' = [Done (fst done)].
Proof.
  intros s job done.
  destruct (download_video_balanced ydl req w) as (B1 & B2 & _). fold done in B1, B2.
  destruct (0 <? semaphore w) eqn:G.
  - assert (Hs : 0 < semaphore w) by (apply Z.ltb_lt, G).
    eexists. split; [cbn; rewrite G; cbn; reflexivity|].
    cbn [s_semaphore s_active s_tasks]. rewrite B1, B2.
    split; [lia|]. split; [lia|].
    subst done. rewrite (download_video_granted cfg ydl req w Hs). reflexivity.
  - assert (Hs : semaphore w <= 0) by (apply Z.ltb_ge, G).
    assert (T : Qle_bool (clock (env w) + 5) (clock (env w) + 5) = true)
      by (apply Qle_bool_iff; lra).
    eexists. split.
    { cbn -[Qplus Qle_bool]. rewrite T. change (Qle_bool 0 5) with true.
      cbn -[Qplus Qle_bool]. rewrite T. reflexivity. }
    cbn [s_semaphore s_active s_tasks set_task]. rewrite B1, B2.
    split; [reflexivity|]. split; [reflexivity|].
    subst done. rewrite (download_video_denied cfg ydl req w Hs). reflexivity.
Qed.

End AdmissionFacts.

(** ** The handler on the event loop *)

Section EventLoopFacts.

Variable cfg : config.
Variable ydl : engine.

Lemma download_video_pieces (req : DownloadRequest) :
  download_video cfg ydl req
  = (EventLoop.admission ;; EventLoop.counted ;; EventLoop.job_and_finally cfg ydl req).
Proof. reflexivity. Qed.

Lemma admission_granted (w : world) :
  0 < semaphore w ->
  EventLoop.admission w
  = (inr tt,
     {| env := env w; semaphore := semaphore w - 1;
        active_downloads := active_downloads w; trace := trace w ++ [EvAcquire] |}).
Proof.
  intros H. apply Z.ltb_lt in H.
  unfold EventLoop.admission, try_except, wait_for_acquire. rewrite H. reflexivity.
Qed.

Lemma admission_denied (w : world) :
  semaphore w <= 0 ->
  EventLoop.admission w
  = (inl (HTTPException 429 server_busy),
     with_env (fun o => with_clock (clock o + 5) o) w).
Proof.
  intros H. apply Z.ltb_ge in H.
  unfold EventLoop.admission, try_except, wait_for_acquire. rewrite H. reflexivity.
Qed.

Lemma counted_run (w : world) :
  EventLoop.counted w
  = (inr tt,
     {| env := env w; semaphore := semaphore w;
        active_downloads := active_downloads w + 1; trace := trace w ++ [EvIncr] |}).
Proof. reflexivity. Qed.

Lemma job_and_finally_run (req : DownloadRequest) (w : world) :
  let job := to_thread (_download cfg ydl (req_url req) (req_quality req) (req_filename req))
               w in
  EventLoop.job_and_finally cfg ydl req w
  = (Interleaving.response cfg (fst job),
     {| env := env (snd job); semaphore := semaphore w + 1;
        active_downloads := active_downloads w + -1;
        trace := trace w ++ [EvJob; EvDecr; EvRelease] |}).
Proof.
  intros job. subst job.
  destruct (frames_download cfg ydl (req_url req) (req_quality req) (req_filename req)
              (emit EvJob w)) as (F1 & F2 & F3).
  unfold EventLoop.job_and_finally, to_thread, add_active, semaphore_release in *.
  run_m.
  destruct (_download cfg ydl _ _ _ (emit EvJob w)) as [[e|r] w1];
    cbn [fst snd Interleaving.response] in *; unfold emit in *;
    cbn [env semaphore active_downloads trace] in *;
    rewrite F1, F2, F3, <- !app_assoc; reflexivity.
Qed.

End EventLoopFacts.

Section EventLoopSteps.

Variable cfg : config.
Variable ydl : engine.

Lemma occurrences_app (e : event) (t l : list event) :
  occurrences e (t ++ l) = occurrences e t + occurrences e l.
Proof.
  unfold occurrences. rewrite List.filter_app, List.length_app. lia.
Qed.

Lemma occurrences_cons (e e' : event) (t : list event) :
  occurrences e (e' :: t) = Z.b2z (is_event e e') + occurrences e t.
Proof.
  unfold occurrences. cbn [List.filter]. destruct (is_event e e'); cbn [length Z.b2z]; lia.
Qed.

Lemma occurrences_nil (e : event) : occurrences e [] = 0.
Proof. reflexivity. Qed.

Lemma lookup_phase (l : list (DownloadRequest * Interleaving.phase)) (i : nat)
      (req : DownloadRequest) (p : Interleaving.phase) :
  l !! i = Some (req, p) -> (snd <$> l) !! i = Some p.
Proof. intros H. rewrite list_lookup_fmap, H. reflexivity. Qed.

Lemma view_set_request (i : nat) (req : DownloadRequest) (p : Interleaving.phase)
      (w : world) (st : EventLoop.system) :
  EventLoop.view (EventLoop.set_request i req p w st)
  = {| Interleaving.s_clock := EventLoop.loop_time st;
       Interleaving.s_semaphore := semaphore w;
       Interleaving.s_active := active_downloads w;
       Interleaving.s_tasks := <[i := p]> (snd <$> EventLoop.requests st) |}.
Proof.
  unfold EventLoop.view, EventLoop.set_request.
  cbn [EventLoop.loop_time EventLoop.shared EventLoop.requests].
  rewrite list_fmap_insert. reflexivity.
Qed.

(** Every action of the event loop is a step of the interleaving of the
    phases. *)
Lemma act_simulates (a : EventLoop.action) (st st' : EventLoop.system) :
  EventLoop.act cfg ydl a st = Some st' ->
  Interleaving.step cfg (EventLoop.label_of cfg ydl a st) (EventLoop.view st)
  = Some (EventLoop.view st').
Proof.
  destruct a as [req|d|i|i|i|i]; cbn [EventLoop.act EventLoop.label_of Interleaving.step];
    intros H.
  - injection H as <-. unfold EventLoop.view.
    cbn [EventLoop.loop_time EventLoop.shared EventLoop.requests
         Interleaving.s_clock Interleaving.s_semaphore Interleaving.s_active
         Interleaving.s_tasks].
    rewrite fmap_app. reflexivity.
  - cbn [EventLoop.view Interleaving.s_clock Interleaving.s_tasks].
    destruct (Qle_bool 0 d && forallb _ _); [|discriminate].
    injection H as <-. reflexivity.
  - destruct (EventLoop.requests st !! i) as [[req [since| | |r]]|] eqn:T; try discriminate.
    cbn [EventLoop.view Interleaving.s_tasks Interleaving.s_semaphore].
    rewrite (lookup_phase _ _ _ _ T).
    destruct (0 <? semaphore (EventLoop.shared st)) eqn:G; [|discriminate].
    rewrite (admission_granted (EventLoop.shared st)) in H by (apply Z.ltb_lt, G).
    injection H as <-. rewrite view_set_request. reflexivity.
  - destruct (EventLoop.requests st !! i) as [[req [since| | |r]]|] eqn:T; try discriminate.
    cbn [EventLoop.view Interleaving.s_tasks Interleaving.s_clock].
    rewrite (lookup_phase _ _ _ _ T).
    destruct (Qle_bool (since + 5) (EventLoop.loop_time st)); [|discriminate].
    cbn in H. injection H as <-. rewrite view_set_request. reflexivity.
  - destruct (EventLoop.requests st !! i) as [[req [since| | |r]]|] eqn:T; try discriminate.
    cbn [EventLoop.view Interleaving.s_tasks].
    rewrite (lookup_phase _ _ _ _ T).
    rewrite counted_run in H. injection H as <-. rewrite view_set_request. reflexivity.
  - destruct (EventLoop.requests st !! i) as [[req [since| | |r]]|] eqn:T; try discriminate.
    cbn [EventLoop.view Interleaving.s_tasks].
    rewrite (lookup_phase _ _ _ _ T).
    rewrite (job_and_finally_run cfg ydl req (EventLoop.shared st)) in H. cbn zeta in H.
    injection H as <-. rewrite view_set_request.
    cbn [semaphore active_downloads]. reflexivity.
Qed.

Lemma inv_boot (t : Q) (w : world) :
  0 <= MAX_CONCURRENT cfg ->
  semaphore w = MAX_CONCURRENT cfg -> active_downloads w = 0 ->
  Interleaving.inv cfg (EventLoop.view (EventLoop.boot t w)).
Proof.
  intros H Hs Ha. split; cbn; try reflexivity; try lia.
  - rewrite Ha. reflexivity.
  - rewrite Hs. unfold Interleaving.count. cbn. lia.
Qed.

Lemma inv_act_run (acts : list EventLoop.action) (st st' : EventLoop.system) :
  Interleaving.inv cfg (EventLoop.view st) ->
  EventLoop.run cfg ydl acts st = Some st' ->
  Interleaving.inv cfg (EventLoop.view st').
Proof.
  revert st. induction acts as [|a acts IH]; intros st Hi H; cbn in H.
  - injection H as <-. exact Hi.
  - destruct (EventLoop.act cfg ydl a st) as [st1|] eqn:E; [|discriminate].
    apply (IH st1); [|exact H].
    eapply InterleavingFacts.inv_step; [exact Hi | apply act_simulates, E].
Qed.

Lemma ledger_boot (t : Q) (w : world) :
  semaphore w = MAX_CONCURRENT cfg -> active_downloads w = 0 -> trace w = [] ->
  ledger cfg (EventLoop.boot t w).
Proof.
  intros Hs Ha Ht. unfold ledger. cbn. rewrite Hs, Ha, Ht. repeat split.
  unfold occurrences. cbn. lia.
Qed.

Lemma ledger_act (a : EventLoop.action) (st st' : EventLoop.system) :
  ledger cfg st -> EventLoop.act cfg ydl a st = Some st' -> ledger cfg st'.
Proof.
  unfold ledger. cbn zeta. intros (L1 & L2 & L3 & L4 & L5).
  destruct a as [req|d|i|i|i|i]; cbn [EventLoop.act]; intros H.
  - injection H as <-. cbn [EventLoop.shared EventLoop.requests].
    rewrite fmap_app, !InterleavingFacts.count_app. cbn [fmap list_fmap snd].
    unfold Interleaving.count at 2 4. cbn. repeat split; lia.
  - destruct (Qle_bool 0 d && forallb _ _); [|discriminate].
    injection H as <-. cbn. repeat split; assumption.
  - destruct (EventLoop.requests st !! i) as [[req [since| | |r]]|] eqn:T; try discriminate.
    destruct (0 <? semaphore (EventLoop.shared st)) eqn:G; [|discriminate].
    rewrite (admission_granted (EventLoop.shared st)) in H by (apply Z.ltb_lt, G).
    injection H as <-. apply lookup_phase in T.
    cbn [EventLoop.set_request EventLoop.shared EventLoop.requests
         semaphore active_downloads trace].
    rewrite list_fmap_insert, !occurrences_app, !(InterleavingFacts.count_insert _ _ _ _ _ T).
    rewrite !occurrences_cons, !occurrences_nil. cbn. repeat split; lia.
  - destruct (EventLoop.requests st !! i) as [[req [since| | |r]]|] eqn:T; try discriminate.
    destruct (Qle_bool (since + 5) (EventLoop.loop_time st)); [|discriminate].
    cbn in H. injection H as <-. apply lookup_phase in T.
    cbn [EventLoop.set_request EventLoop.shared EventLoop.requests].
    rewrite list_fmap_insert, !(InterleavingFacts.count_insert _ _ _ _ _ T).
    cbn. repeat split; lia.
  - destruct (EventLoop.requests st !! i) as [[req [since| | |r]]|] eqn:T; try discriminate.
    rewrite counted_run in H. injection H as <-. apply lookup_phase in T.
    cbn [EventLoop.set_request EventLoop.shared EventLoop.requests
         semaphore active_downloads trace].
    rewrite list_fmap_insert, !occurrences_app, !(InterleavingFacts.count_insert _ _ _ _ _ T).
    rewrite !occurrences_cons, !occurrences_nil. cbn. repeat split; lia.
  - destruct (EventLoop.requests st !! i) as [[req [since| | |r]]|] eqn:T; try discriminate.
    rewrite (job_and_finally_run cfg ydl req (EventLoop.shared st)) in H. cbn zeta in H.
    injection H as <-. apply lookup_phase in T.
    cbn [EventLoop.set_request EventLoop.shared EventLoop.requests
         semaphore active_downloads trace].
    rewrite list_fmap_insert, !occurrences_app, !(InterleavingFacts.count_insert _ _ _ _ _ T).
    rewrite !occurrences_cons, !occurrences_nil. cbn. repeat split; lia.
Qed.

Lemma ledger_run (acts : list EventLoop.action) (st st' : EventLoop.system) :
  ledger cfg st -> EventLoop.run cfg ydl acts st = Some st' -> ledger cfg st'.
Proof.
  revert st. induction acts as [|a acts IH]; intros st Hl H; cbn in H.
  - injection H as <-. exact Hl.
  - destruct (EventLoop.act cfg ydl a st) as [st1|] eqn:E; [|discriminate].
    apply (IH st1); [|exact H]. eapply ledger_act; eauto.
Qed.

End EventLoopSteps.

(** C1.  A call of the download handler leaves the semaphore value and the
    active-download counter as it found them, whatever the job did: when a
    slot is granted the admission events are one acquire, one increment,
    the job, one decrement and one release, in this order, and without a
    grant there is none.  The handler is the sequence of its three pieces:
    the admission takes one from the semaphore when it is positive and
    otherwise changes neither the semaphore nor the counter, the next piece
    adds one to the counter, and the last, whatever the job does, takes one
    from the counter and gives one back to the semaphore.  When the event
    loop interleaves these pieces of any number of requests, from a start
    with a full semaphore and the counter at 0, the counter equals the
    number of requests that run and stays within [0, MAX_CONCURRENT]; every
    slot missing from the semaphore is held by one request, and once all
    requests have answered, the semaphore is full and the counter is 0.
    The admission events account for both: the semaphore is
    [MAX_CONCURRENT] less the acquires not yet released, the counter is the
    increments less the decrements, each acquire is followed by at most one
    increment, each increment by at most one decrement, and decrements and
    releases come in pairs.  Every action of the event loop is a step of
    the interleaving of the phases, in which the same bounds hold. *)
Theorem admission_accounting (cfg : config) :
  (forall (ydl : engine) (req : DownloadRequest) (w : world),
     let w' := snd (download_video cfg ydl req w) in
     semaphore w' = semaphore w
     /\ active_downloads w' = active_downloads w
     /\ (0 < semaphore w ->
         trace w' = trace w ++ [EvAcquire; EvIncr; EvJob; EvDecr; EvRelease])
     /\ (semaphore w <= 0 -> trace w' = trace w))
  /\ (forall (ydl : engine) (req : DownloadRequest) (w : world),
        download_video cfg ydl req w
        = (EventLoop.admission ;; EventLoop.counted ;;
           EventLoop.job_and_finally cfg ydl req) w)
  /\ (forall w : world,
        0 < semaphore w ->
        exists w1 : world,
          EventLoop.admission w = (inr tt, w1)
          /\ semaphore w1 = semaphore w - 1
          /\ active_downloads w1 = active_downloads w)
  /\ (forall w : world,
        semaphore w <= 0 ->
        exists w1 : world,
          EventLoop.admission w = (inl (HTTPException 429 server_busy), w1)
          /\ semaphore w1 = semaphore w
          /\ active_downloads w1 = active_downloads w)
  /\ (forall w : world,
        exists w1 : world,
          EventLoop.counted w = (inr tt, w1)
          /\ semaphore w1 = semaphore w
          /\ active_downloads w1 = active_downloads w + 1)
  /\ (forall (ydl : engine) (req : DownloadRequest) (w : world),
        let w1 := snd (EventLoop.job_and_finally cfg ydl req w) in
        semaphore w1 = semaphore w + 1
        /\ active_downloads w1 = active_downloads w - 1)
  /\ (forall (ydl : engine) (t : Q) (w : world) (acts : list EventLoop.action)
             (st : EventLoop.system),
        0 <= MAX_CONCURRENT cfg ->
        semaphore w = MAX_CONCURRENT cfg ->
        active_downloads w = 0 ->
        EventLoop.run cfg ydl acts (EventLoop.boot t w) = Some st ->
        let phases := snd <$> EventLoop.requests st in
        0 <= active_downloads (EventLoop.shared st) <= MAX_CONCURRENT cfg
        /\ 0 <= semaphore (EventLoop.shared st) <= MAX_CONCURRENT cfg
        /\ active_downloads (EventLoop.shared st)
           = Interleaving.count Interleaving.is_running phases
        /\ semaphore (EventLoop.shared st)
           = MAX_CONCURRENT cfg
             - Interleaving.count Interleaving.is_holding phases
             - Interleaving.count Interleaving.is_running phases
        /\ (forallb Interleaving.is_done phases = true ->
            semaphore (EventLoop.shared st) = MAX_CONCURRENT cfg
            /\ active_downloads (EventLoop.shared st) = 0))
  /\ (forall (ydl : engine) (t : Q) (w : world) (acts : list EventLoop.action)
             (st : EventLoop.system),
        semaphore w = MAX_CONCURRENT cfg ->
        active_downloads w = 0 ->
        trace w = [] ->
        EventLoop.run cfg ydl acts (EventLoop.boot t w) = Some st ->
        ledger cfg st)
  /\ (forall (ydl : engine) (a : EventLoop.action) (st st' : EventLoop.system),
        EventLoop.act cfg ydl a st = Some st' ->
        Interleaving.step cfg (EventLoop.label_of cfg ydl a st) (EventLoop.view st)
        = Some (EventLoop.view st'))
  /\ (forall s : Interleaving.server,
        0 <= MAX_CONCURRENT cfg ->
        Interleaving.reachable cfg s ->
        0 <= Interleaving.s_active s <= MAX_CONCURRENT cfg
        /\ 0 <= Interleaving.s_semaphore s <= MAX_CONCURRENT cfg
        /\ Interleaving.s_active s
           = Interleaving.count Interleaving.is_running (Interleaving.s_tasks s)
        /\ Interleaving.s_semaphore s
           = MAX_CONCURRENT cfg
             - Interleaving.count Interleaving.is_holding (Interleaving.s_tasks s)
             - Interleaving.count Interleaving.is_running (Interleaving.s_tasks s)
        /\ (forallb Interleaving.is_done (Interleaving.s_tasks s) = true ->
            Interleaving.s_semaphore s = MAX_CONCURRENT cfg
            /\ Interleaving.s_active s = 0)).
Proof.
  assert (Bounds : forall s : Interleaving.server,
            Interleaving.inv cfg s ->
            0 <= Interleaving.s_active s <= MAX_CONCURRENT cfg
            /\ 0 <= Interleaving.s_semaphore s <= MAX_CONCURRENT cfg
            /\ Interleaving.s_active s
               = Interleaving.count Interleaving.is_running (Interleaving.s_tasks s)
            /\ Interleaving.s_semaphore s
               = MAX_CONCURRENT cfg
                 - Interleaving.count Interleaving.is_holding (Interleaving.s_tasks s)
                 - Interleaving.count Interleaving.is_running (Interleaving.s_tasks s)
            /\ (forallb Interleaving.is_done (Interleaving.s_tasks s) = true ->
                Interleaving.s_semaphore s = MAX_CONCURRENT cfg
                /\ Interleaving.s_active s = 0)).
  { intros s [Hsem Hact Hslots _].
    pose proof (InterleavingFacts.count_nonneg Interleaving.is_holding
                  (Interleaving.s_tasks s)).
    pose proof (InterleavingFacts.count_nonneg Interleaving.is_running
                  (Interleaving.s_tasks s)).
    repeat split; try lia.
    + rewrite (InterleavingFacts.count_all_done Interleaving.is_holding) in Hslots;
        [|intros []; cbn; congruence | assumption].
      rewrite (InterleavingFacts.count_all_done Interleaving.is_running) in Hslots;
        [|intros []; cbn; congruence | assumption].
      lia.
    + rewrite Hact. apply InterleavingFacts.count_all_done; [|assumption].
      intros []; cbn; congruence. }
  split; [|split; [|split; [|split; [|split; [|split; [|split; [|split; [|split]]]]]]]].
  - apply download_video_balanced.
  - reflexivity.
  - intros w H. eexists. split; [apply admission_granted, H|]. split; reflexivity.
  - intros w H. eexists. split; [apply admission_denied, H|]. split; reflexivity.
  - intros w. eexists. split; [apply counted_run|]. split; reflexivity.
  - intros ydl req w w1. subst w1. rewrite job_and_finally_run. cbn. split; lia.
  - intros ydl t w acts st Hmax Hs Ha R phases.
    apply (Bounds (EventLoop.view st)).
    apply (inv_act_run cfg ydl acts (EventLoop.boot t w) st); [|exact R].
    apply inv_boot; assumption.
  - intros ydl t w acts st Hs Ha Ht R.
    apply (ledger_run cfg ydl acts (EventLoop.boot t w) st); [|exact R].
    apply ledger_boot; assumption.
  - intros ydl. apply act_simulates.
  - intros s Hmax Hr. apply Bounds, InterleavingFacts.inv_reachable; assumption.
Qed.

Lemma admission_accounting_witness :
  exists st : EventLoop.system,
    EventLoop.run default_config (ydl_writes false "clip1.mp4" 2097152) two_downloads
      (EventLoop.boot 0 idle_world) = Some st
    /\ active_downloads (EventLoop.shared st) = 1
    /\ semaphore (EventLoop.shared st) = 4.
Proof.
  destruct (admission_accounting default_config) as (_ & _ & _ & _ & _ & _ & H & _).
  eassert (R : EventLoop.run default_config (ydl_writes false "clip1.mp4" 2097152)
                 two_downloads (EventLoop.boot 0 idle_world) = Some _)
    by (vm_compute; reflexivity).
  eexists. split; [exact R|].
  destruct (H (ydl_writes false "clip1.mp4" 2097152) 0%Q idle_world two_downloads _
              ltac:(cbn; lia) eq_refl eq_refl R) as (_ & _ & Hact & Hsem & _).
  rewrite Hact, Hsem. split; reflexivity.
Defined.

(** C2.  A call that finds no free slot, and to which none is released, is
    answered after 5 seconds with status 429 and a detail that starts with
    [SERVER_BUSY:]; the job is not run: nothing but the clock has changed,
    the directory, the semaphore, the counter and the trace are as before.
    Among interleaved requests no request waits for a slot longer than 5
    seconds; at the end of its 5 seconds the timeout can be taken, whatever
    the other requests do, and taking it answers 429 and changes neither
    the semaphore nor the counter, the request never having held a slot. *)
Theorem admission_denied_after_timeout (cfg : config) :
  (forall (ydl : engine) (req : DownloadRequest) (w : world),
     semaphore w <= 0 ->
     exists detail : string,
       download_video cfg ydl req w
       = (inl (HTTPException 429 detail),
          with_env (fun o => with_clock (clock o + 5) o) w)
       /\ Py.startswith detail "SERVER_BUSY:" = true)
  /\ (forall s : Interleaving.server,
        0 <= MAX_CONCURRENT cfg ->
        Interleaving.reachable cfg s ->
        forall (i : nat) (since : Q),
          Interleaving.s_tasks s !! i = Some (Interleaving.Waiting since) ->
          (Interleaving.s_clock s <= since + 5)%Q)
  /\ (forall (s : Interleaving.server) (i : nat) (since : Q),
        Interleaving.s_tasks s !! i = Some (Interleaving.Waiting since) ->
        (since + 5 <= Interleaving.s_clock s)%Q ->
        exists s' : Interleaving.server,
          Interleaving.step cfg (Interleaving.Timeout i) s = Some s')
  /\ (forall (s s' : Interleaving.server) (i : nat),
        Interleaving.step cfg (Interleaving.Timeout i) s = Some s' ->
        (exists since : Q,
           Interleaving.s_tasks s !! i = Some (Interleaving.Waiting since))
        /\ Interleaving.s_tasks s' !! i
           = Some (Interleaving.Done (inl (HTTPException 429 server_busy)))
        /\ Interleaving.s_semaphore s' = Interleaving.s_semaphore s
        /\ Interleaving.s_active s' = Interleaving.s_active s
        /\ Interleaving.s_clock s' = Interleaving.s_clock s).
Proof.
  split; [|split; [|split]].
  - intros ydl req w Hs. exists server_busy. split; [|reflexivity].
    apply download_video_denied, Hs.
  - intros s Hmax Hr i since Hi.
    destruct (InterleavingFacts.inv_reachable cfg s Hmax Hr) as [_ _ _ Htim].
    apply (forallb_lookup _ _ _ _ Htim) in Hi. cbn in Hi.
    apply Qle_bool_iff in Hi. exact Hi.
  - intros s i since Hi Hc. cbn. rewrite Hi.
    apply Qle_bool_iff in Hc. rewrite Hc. eauto.
  - intros s s' i H. cbn in H.
    destruct (Interleaving.s_tasks s !! i) as [[since| | |r]|] eqn:T; try discriminate.
    destruct (Qle_bool _ _); [|discriminate]. injection H as <-.
    split; [eauto|]. cbn. split; [|auto].
    eapply lookup_insert_same, T.
Qed.

Lemma admission_denied_after_timeout_witness :
  (exists detail : string,
     download_video default_config (ydl_writes false "clip1.mp4" 7) clip1_request busy_world
     = (inl (HTTPException 429 detail),
        with_env (fun o => with_clock (clock o + 5) o) busy_world)
     /\ Py.startswith detail "SERVER_BUSY:" = true)
  /\ exists s : Interleaving.server,
       Interleaving.run one_slot_config late_request (Interleaving.init one_slot_config 0)
       = Some s
       /\ (Interleaving.s_clock s <= 2 + 5)%Q
       /\ exists s' : Interleaving.server,
            Interleaving.step one_slot_config (Interleaving.Timeout 1) s = Some s'.
Proof.
  destruct (admission_denied_after_timeout default_config) as (H1 & _).
  destruct (admission_denied_after_timeout one_slot_config) as (_ & H2 & H3 & _).
  split.
  - apply (H1 (ydl_writes false "clip1.mp4" 7) clip1_request busy_world). cbn. lia.
  - eexists. split; [reflexivity|].
    match goal with
    | |- (Interleaving.s_clock ?s <= _)%Q /\ _ =>
        split;
        [ apply (H2 s ltac:(cbn; lia)
                   (ex_intro _ 0%Q (ex_intro _ late_request eq_refl)) 1%nat (0 + 2)%Q eq_refl)
        | apply (H3 s 1%nat (0 + 2)%Q eq_refl); cbn; discriminate ]
    end.
Defined.

(** * Further properties *)

(** ** The classifier as a whole *)

Section ClassifierFacts.

Import Py.
Local Open Scope string_scope.

Variable cfg : config.

Lemma prefix_split (n h : string) :
  String.prefix n h = true -> exists post, h = n ++ post.
Proof.
  revert h. induction n as [|c n IH]; intros h H.
  - exists h. reflexivity.
  - destruct h as [|d h]; [discriminate|].
    apply prefix_cons in H as [-> H]. destruct (IH h H) as [post ->].
    exists post. reflexivity.
Qed.

Lemma str_in_split (n h : string) :
  str_in n h = true -> exists pre post, h = pre ++ n ++ post.
Proof.
  induction h as [|c h IH]; rewrite str_in_unfold; intros H.
  - rewrite orb_false_r in H. apply prefix_split in H as [post E].
    exists "", post. exact E.
  - apply orb_prop in H as [H|H].
    + apply prefix_split in H as [post E]. exists "", post. exact E.
    + destruct (IH H) as (pre & post & ->). exists (String c pre), post. reflexivity.
Qed.

Lemma append_assoc (a b c : string) : (a ++ b) ++ c = a ++ b ++ c.
Proof.
  induction a as [|x a IH]; [reflexivity|].
  change (String x ((a ++ b) ++ c) = String x (a ++ b ++ c)). f_equal. exact IH.
Qed.

(** A text that contains a phrase contains the parts of the phrase. *)
Lemma str_in_part (a n b h : string) :
  str_in (a ++ n ++ b) h = true -> str_in n h = true.
Proof.
  intros H. apply str_in_split in H as (pre & post & ->).
  replace (pre ++ (a ++ n ++ b) ++ post) with ((pre ++ a) ++ n ++ (b ++ post))
    by (rewrite !append_assoc; reflexivity).
  apply str_in_infix.
Qed.

Ltac walk_rules :=
  repeat match goal with
         | |- context [if str_in ?k ?l || _ then _ else _] =>
             destruct (str_in k l) eqn:?; cbn [orb andb]
         | |- context [if str_in ?k ?l then _ else _] =>
             destruct (str_in k l) eqn:?; cbn [orb andb]
         end.

Lemma parse_error_in_messages (text : string) :
  existsb (fun k => str_in k (lower text)) keywords = true ->
  In (_parse_error cfg text) (messages cfg).
Proof.
  unfold keywords, messages, _parse_error. cbn [existsb truthy_str andb].
  intros H. walk_rules; cbn [In]; try solve [intuition auto 20].
  discriminate H.
Qed.

Lemma parse_error_same_lower (t1 t2 : string) :
  lower t1 = lower t2 ->
  _parse_error cfg t1 = _parse_error cfg t2
  \/ (_parse_error cfg t1 = t1 /\ _parse_error cfg t2 = t2).
Proof.
  intros E. unfold _parse_error. rewrite E. cbn [truthy_str andb].
  walk_rules; auto.
Qed.

Lemma parse_error_age (text : string) :
  forallb (fun k => negb (str_in k (lower text))) keywords_before_age = true ->
  str_in "age" (lower text) = true ->
  _parse_error cfg text = msg_age.
Proof.
  unfold keywords_before_age. cbn [forallb]. intros H Hage.
  repeat (apply andb_prop in H; destruct H as [?%negb_true_iff H]).
  unfold _parse_error.
  repeat match goal with E : str_in _ _ = false |- _ => rewrite E; clear E end.
  rewrite Hage. reflexivity.
Qed.

End ClassifierFacts.

(** X1.  The classifier answers with the text it was given when none of its
    keywords occurs in the lowercased text, and with one of its ten fixed
    messages when one does: it never builds any other text. *)
Theorem parse_error_range (cfg : config) (text : string) :
  (forallb (fun k => negb (Py.str_in k (Py.lower text))) keywords = true ->
   _parse_error cfg text = text)
  /\ (existsb (fun k => Py.str_in k (Py.lower text)) keywords = true ->
      In (_parse_error cfg text) (messages cfg)).
Proof.
  split; [apply parse_error_passthrough | apply parse_error_in_messages].
Qed.

Lemma parse_error_range_witness :
  _parse_error default_config "ERROR: HTTP Error 502: Bad Gateway"
  = "ERROR: HTTP Error 502: Bad Gateway"%string
  /\ In (_parse_error default_config "ERROR: Sign in to confirm you are not a bot")
        (messages default_config).
Proof.
  split.
  - apply (parse_error_range default_config
             "ERROR: HTTP Error 502: Bad Gateway"). reflexivity.
  - apply (parse_error_range default_config
             "ERROR: Sign in to confirm you are not a bot"). reflexivity.
Defined.

(** X2.  Classification does not depend on letter case: two texts with the
    same lowercased form get the same answer, unless no rule matches, in
    which case each is returned as it is. *)
Theorem parse_error_case_insensitive (cfg : config) (t1 t2 : string) :
  Py.lower t1 = Py.lower t2 ->
  _parse_error cfg t1 = _parse_error cfg t2
  \/ (_parse_error cfg t1 = t1 /\ _parse_error cfg t2 = t2).
Proof. apply parse_error_same_lower. Qed.

Lemma parse_error_case_insensitive_witness :
  _parse_error default_config "VIDEO UNAVAILABLE"
  = _parse_error default_config "Video unavailable"
  \/ (_parse_error default_config "VIDEO UNAVAILABLE" = "VIDEO UNAVAILABLE"%string
      /\ _parse_error default_config "Video unavailable" = "Video unavailable"%string).
Proof.
  apply (parse_error_case_insensitive default_config
           "VIDEO UNAVAILABLE" "Video unavailable"). reflexivity.
Defined.

(** X3.  The age rule looks for the bare letters "age": its second test,
    "confirm your age", never adds a match, and any text with "age" inside a
    word, such as "webpage", is answered as age-restricted unless one of
    the six keywords of the earlier rules occurs. *)
Theorem parse_error_age_rule (cfg : config) (text : string) :
  (Py.str_in "age" (Py.lower text) || Py.str_in "confirm your age" (Py.lower text)
   = Py.str_in "age" (Py.lower text))
  /\ (forallb (fun k => negb (Py.str_in k (Py.lower text))) keywords_before_age = true ->
      Py.str_in "age" (Py.lower text) = true ->
      _parse_error cfg text = "This video is age-restricted"%string).
Proof.
  split.
  - destruct (Py.str_in "age" (Py.lower text)) eqn:A; [reflexivity|]. cbn [orb].
    destruct (Py.str_in "confirm your age" (Py.lower text)) eqn:C; [|reflexivity].
    rewrite <- A. symmetry.
    apply (str_in_part "confirm your " "age" "" (Py.lower text)), C.
  - apply parse_error_age.
Qed.

Lemma parse_error_age_rule_witness :
  _parse_error default_config "ERROR: Unable to download webpage: HTTP Error 404"
  = "This video is age-restricted"%string.
Proof.
  apply (parse_error_age_rule default_config
           "ERROR: Unable to download webpage: HTTP Error 404"); reflexivity.
Defined.

(** ** The job's other exits *)

Section JobFacts.

Import Py Num.
Local Open Scope string_scope.

Variable cfg : config.
Variable ydl : engine.

Lemma upper_append (a b : string) : upper (a ++ b) = upper a ++ upper b.
Proof.
  induction a as [|c a IH]; [reflexivity|].
  change (upper (String c (a ++ b)) = (chr_upper c ++ upper a) ++ upper b).
  cbn [upper]. rewrite IH. generalize (chr_upper c) as u. intros u.
  induction u as [|x u IHu]; [reflexivity|].
  change (String x (u ++ upper a ++ upper b) = String x ((u ++ upper a) ++ upper b)).
  f_equal. exact IHu.
Qed.

Lemma chr_upper_twice (c : ascii) : upper (chr_upper c) = chr_upper c.
Proof. destruct c as [[] [] [] [] [] [] [] []]; reflexivity. Qed.

Lemma upper_twice (s : string) : upper (upper s) = upper s.
Proof.
  induction s as [|c s IH]; [reflexivity|]. cbn [upper].
  rewrite upper_append, chr_upper_twice, IH. reflexivity.
Qed.

Lemma round2_near (x : Q) : (Qabs (x - round2 x) <= 1 # 200)%Q.
Proof.
  unfold round2. pose proof (round_half_even_near (x * 100)) as R.
  apply Qabs_Qle_condition in R. apply Qabs_Qle_condition.
  set (t := round_half_even (x * 100)) in *.
  assert (E : (t # 100 == inject_Z t * (1 # 100))%Q).
  { unfold Qeq, Qmult, inject_Z. cbn. lia. }
  rewrite E. split; lra.
Qed.

Lemma round_half_even_small (x : Q) :
  (0 <= x)%Q -> (x < 1 # 2)%Q -> round_half_even x = 0.
Proof.
  intros H0 H1. unfold round_half_even.
  pose proof (Qfloor_le x) as Hlo. pose proof (Qlt_floor x) as Hhi.
  assert (F : Qfloor x = 0).
  { assert (A : (inject_Z (Qfloor x) < inject_Z 1)%Q)
      by (change (inject_Z 1) with 1%Q; lra).
    assert (B : (inject_Z 0 < inject_Z (Qfloor x + 1))%Q)
      by (change (inject_Z 0) with 0%Q; lra).
    rewrite <- Zlt_Qlt in A, B. lia. }
  rewrite F. replace (Qlt_bool (x - inject_Z 0) (1 # 2)) with true; [reflexivity|].
  symmetry. apply Qlt_bool_iff. change (inject_Z 0) with 0%Q. lra.
Qed.

Lemma find_output_none (names : list string) (filename : string) :
  (forall name, In name names -> startswith name filename = false) ->
  find_output names filename = None.
Proof.
  induction names as [|f names IH]; intros H; [reflexivity|]. cbn [find_output].
  rewrite (H f (or_introl eq_refl)). apply IH. intros name Hn. apply H. right. exact Hn.
Qed.

Lemma download_engine_fails (url quality : string) (filename : option string)
      (w : world) (msg : string) (o : outside) :
  ydl (download_opts cfg quality (resolved_name filename (clock (env w)))) url true (env w)
  = (inl msg, o) ->
  _download cfg ydl url quality filename w = (inl (Exception msg), with_env (fun _ => o) w).
Proof.
  intros H. unfold _download. run_m. rewrite resolve_filename_run.
  unfold extract_info. rewrite H. reflexivity.
Qed.

Lemma download_not_found (url quality : string) (filename : option string)
      (w : world) (info : option (gmap string pyval)) (o : outside) :
  ydl (download_opts cfg quality (resolved_name filename (clock (env w)))) url true (env w)
  = (inr info, o) ->
  listdir_error o = None ->
  find_output (List.map d_name (dir_entries o)) (resolved_name filename (clock (env w)))
  = None ->
  _download cfg ydl url quality filename w
  = (inl (Exception "Download completed but output file not found"),
     with_env (fun _ => o) w).
Proof.
  intros H Hl Hf. unfold _download. run_m. rewrite resolve_filename_run.
  unfold extract_info. rewrite H. unfold OS.listdir. rewrite String.eqb_refl.
  cbn [env with_env]. rewrite Hl, Hf. reflexivity.
Qed.

(** All that a successful [_download] has gone through. *)
Lemma download_success_full (url quality : string) (filename : option string)
      (w w' : world) (r : DownloadResult) :
  _download cfg ydl url quality filename w = (inr r, w') ->
  let fname := resolved_name filename (clock (env w)) in
  exists (d : gmap string pyval) (o : outside) (e : dirent) (size : Z),
    ydl (download_opts cfg quality fname) url true (env w) = (inr (Some d), o)
    /\ w' = with_env (fun _ => o) w
    /\ listdir_error o = None
    /\ find_output (List.map d_name (dir_entries o)) fname = Some (r_filename r)
    /\ OS.find_entry (DOWNLOAD_DIR cfg) (OS.path_join (DOWNLOAD_DIR cfg) (r_filename r)) o
       = Some e
    /\ d_getsize e = inr size
    /\ size <> 0
    /\ (size # 1048576 <= inject_Z (MAX_FILE_SIZE_MB cfg))%Q
    /\ r = {| r_filename := r_filename r;
              r_size_mb := round2 (size # 1048576);
              r_duration := dict_get d "duration";
              r_title := dict_get d "title";
              r_format :=
                let ext := upper (lstrip_dot (snd (OS.path_splitext (r_filename r)))) in
                if truthy_str ext then ext else "MP4" |}.
Proof.
  intros H fname. revert H.
  unfold _download. run_m. rewrite resolve_filename_run. fold fname.
  unfold extract_info.
  destruct (ydl _ url true (env w)) as [[msg|info] o] eqn:Y; [discriminate|].
  unfold OS.listdir. rewrite String.eqb_refl. cbn [env with_env].
  destruct (listdir_error o) eqn:L; [discriminate|].
  destruct (find_output _ _) as [actual|] eqn:F; [|discriminate].
  destruct (truthy_str actual); [|discriminate]. cbn [negb].
  unfold OS.path_getsize. cbn [env with_env].
  destruct (OS.find_entry _ _ o) as [e|] eqn:E; [|discriminate].
  destruct (d_getsize e) as [msg|size] eqn:S; [discriminate|].
  cbv beta iota.
  destruct (size =? 0)%Z eqn:Z0.
  { destruct (OS.unlink _ _ _) as [[?|?] ?]; discriminate. }
  destruct (Qlt_bool _ _) eqn:Q0.
  { destruct (OS.unlink _ _ _) as [[?|?] ?]; discriminate. }
  destruct info as [d|]; [|discriminate]. cbn.
  intros [= <- <-]. cbn [r_filename].
  exists d, o, e, size. repeat split; try assumption; try reflexivity.
  - apply Z.eqb_neq, Z0.
  - apply Qlt_bool_false, Q0.
Qed.

Lemma format_upper (name : string) :
  let ext := upper (lstrip_dot (snd (OS.path_splitext name))) in
  let fmt := if truthy_str ext then ext else "MP4" in
  fmt <> "" /\ upper fmt = fmt.
Proof.
  cbv zeta. destruct (upper (lstrip_dot _)) as [|c s] eqn:E.
  - split; [discriminate | reflexivity].
  - cbn [truthy_str]. split; [discriminate|]. rewrite <- E. apply upper_twice.
Qed.

End JobFacts.

Lemma download_video_success_facts
    (cfg : config) (ydl : engine) (req : DownloadRequest) (w w' : world)
    (r : DownloadResult) :
  download_video cfg ydl req w = (inr r, w') ->
  let fname := resolved_name (req_filename req) (clock (env w)) in
  exists (d : gmap string pyval) (o : outside) (e : dirent) (size : Z),
    ydl (download_opts cfg (req_quality req) fname) (req_url req) true (env w)
    = (inr (Some d), o)
    /\ env w' = o
    /\ located_output cfg o fname = Some e
    /\ In e (dir_entries (env w'))
    /\ OS.entry_path (DOWNLOAD_DIR cfg) e = OS.path_join (DOWNLOAD_DIR cfg) (r_filename r)
    /\ d_getsize e = inr size
    /\ size <> 0
    /\ (size # 1048576 <= inject_Z (MAX_FILE_SIZE_MB cfg))%Q
    /\ r_size_mb r = Num.round2 (size # 1048576)
    /\ r_format r <> ""%string
    /\ Py.upper (r_format r) = r_format r.
Proof.
  intros H fname.
  destruct (Z.lt_ge_cases 0 (semaphore w)) as [Hs|Hs];
    [|rewrite (download_video_denied cfg ydl req w Hs) in H; discriminate].
  rewrite (download_video_granted cfg ydl req w Hs) in H.
  destruct (_download cfg ydl _ _ _ (admitted w)) as [[x|r'] w1] eqn:J;
    cbn [fst snd Interleaving.response] in H; [discriminate|].
  injection H as -> <-.
  apply download_success_full in J
    as (d & o & e & size & Y & -> & L & F & E & S & Hne & Hle & R).
  destruct (find_entry_path cfg _ _ _ E) as [Hp Hin].
  destruct (format_upper (r_filename r)) as [F1 F2].
  exists d, o, e, size. cbn [released env with_env admitted].
  repeat split; try assumption.
  - unfold located_output. subst fname. cbn [admitted env] in F. rewrite F. exact E.
  - rewrite R. reflexivity.
  - rewrite R. exact F1.
  - rewrite R. exact F2.
Qed.


(** X5.  When the engine fails in an admitted download, the caller gets 400
    with the engine's message as classified by [_parse_error]; the slot is
    given back and the directory is as the engine left it, the job having
    neither listed nor removed anything. *)
Theorem download_engine_failure
    (cfg : config) (ydl : engine) (req : DownloadRequest) (w : world)
    (msg : string) (o : outside) :
  0 < semaphore w ->
  ydl (download_opts cfg (req_quality req)
         (resolved_name (req_filename req) (clock (env w))))
      (req_url req) true (env w) = (inl msg, o) ->
  download_video cfg ydl req w
  = (inl (HTTPException 400 (_parse_error cfg msg)),
     released (with_env (fun _ => o) (admitted w))).
Proof.
  intros Hs H. rewrite (download_video_granted cfg ydl req w Hs).
  rewrite (download_engine_fails cfg ydl _ _ _ (admitted w) msg o H). reflexivity.
Qed.

Lemma download_engine_failure_witness :
  download_video default_config (ydl_fails "ERROR: [youtube] x: Video unavailable")
    clip1_request idle_world
  = (inl (HTTPException 400 "This video is unavailable"),
     released (with_env (fun _ => env idle_world) (admitted idle_world))).
Proof.
  apply (download_engine_failure default_config
           (ydl_fails "ERROR: [youtube] x: Video unavailable") clip1_request idle_world
           "ERROR: [youtube] x: Video unavailable" (env idle_world));
    reflexivity.
Defined.

(** X6.  When the engine returns but no listed name starts with the
    resolved base filename, the admitted download answers 400 with the
    output-not-found message, unchanged by the classifier, and removes
    nothing. *)
Theorem download_output_not_found
    (cfg : config) (ydl : engine) (req : DownloadRequest) (w : world)
    (info : option (gmap string pyval)) (o : outside) :
  let fname := resolved_name (req_filename req) (clock (env w)) in
  0 < semaphore w ->
  ydl (download_opts cfg (req_quality req) fname) (req_url req) true (env w)
  = (inr info, o) ->
  listdir_error o = None ->
  (forall e : dirent, In e (dir_entries o) -> Py.startswith (d_name e) fname = false) ->
  download_video cfg ydl req w
  = (inl (HTTPException 400 "Download completed but output file not found"),
     released (with_env (fun _ => o) (admitted w))).
Proof.
  intros fname Hs H Hl Hnone. rewrite (download_video_granted cfg ydl req w Hs).
  rewrite (download_not_found cfg ydl _ _ _ (admitted w) info o H Hl).
  - reflexivity.
  - apply find_output_none. intros name Hn.
    apply List.in_map_iff in Hn as (e & <- & He). apply Hnone, He.
Qed.

Lemma download_output_not_found_witness :
  download_video default_config (ydl_writes false "other.mp4" 7) clip1_request idle_world
  = (inl (HTTPException 400 "Download completed but output file not found"),
     released
       (with_env
          (fun _ => with_entries [regular_file "other.mp4" 7 1000] (env idle_world))
          (admitted idle_world))).
Proof.
  apply (download_output_not_found default_config (ydl_writes false "other.mp4" 7)
           clip1_request idle_world _ _ ltac:(reflexivity) eq_refl eq_refl).
  intros e [<-|[]]. reflexivity.
Defined.

(** X7.  An admitted download whose located file is not empty and measures
    at most [MAX_FILE_SIZE_MB] megabytes, the limit itself included,
    returns a result: the located name, the engine's duration and title,
    and the size in MB rounded to hundredths, at most 0.005 off; the
    directory is as the engine left it. *)
Theorem download_within_limit
    (cfg : config) (ydl : engine) (req : DownloadRequest) (w : world)
    (d : gmap string pyval) (o : outside) (actual : string) (e : dirent) (size : Z) :
  let fname := resolved_name (req_filename req) (clock (env w)) in
  0 < semaphore w ->
  ydl (download_opts cfg (req_quality req) fname) (req_url req) true (env w)
  = (inr (Some d), o) ->
  listdir_error o = None ->
  find_output (List.map d_name (dir_entries o)) fname = Some actual ->
  OS.find_entry (DOWNLOAD_DIR cfg) (OS.path_join (DOWNLOAD_DIR cfg) actual) o = Some e ->
  d_getsize e = inr size ->
  size <> 0 ->
  (size # 1048576 <= inject_Z (MAX_FILE_SIZE_MB cfg))%Q ->
  exists r : DownloadResult,
    download_video cfg ydl req w = (inr r, released (with_env (fun _ => o) (admitted w)))
    /\ r_filename r = actual
    /\ r_duration r = dict_get d "duration"
    /\ r_title r = dict_get d "title"
    /\ r_size_mb r = Num.round2 (size # 1048576)
    /\ (Qabs ((size # 1048576) - r_size_mb r) <= 1 # 200)%Q.
Proof.
  intros fname Hs H Hl Hf He Hsz Hne Hle.
  eexists. split.
  - rewrite (download_video_granted cfg ydl req w Hs).
    rewrite (download_measured cfg ydl _ _ _ (admitted w) (Some d) o actual e size
               H Hl Hf He Hsz).
    cbn zeta.
    replace (size =? 0)%Z with false by (symmetry; apply Z.eqb_neq, Hne).
    replace (Num.Qlt_bool (inject_Z (MAX_FILE_SIZE_MB cfg)) (size # 1048576)) with false
      by (symmetry; apply Qlt_bool_false, Hle).
    reflexivity.
  - cbn [r_filename r_duration r_title r_size_mb]. repeat split. apply round2_near.
Qed.

Lemma download_within_limit_witness :
  exists r : DownloadResult,
    download_video default_config ydl_skips clip1_request limit_world
    = (inr r, released (with_env (fun _ => env limit_world) (admitted limit_world)))
    /\ r_filename r = "clip1.mp4"%string
    /\ r_size_mb r = Num.round2 (104857600 # 1048576).
Proof.
  destruct (download_within_limit default_config ydl_skips clip1_request limit_world
              _ _ "clip1.mp4" (regular_file "clip1.mp4" 104857600 990) 104857600
              ltac:(reflexivity) eq_refl eq_refl eq_refl eq_refl eq_refl
              ltac:(discriminate) ltac:(discriminate))
    as (r & E & N & _ & _ & S & _).
  exists r. split; [exact E | split; [exact N | exact S]].
Defined.

(** X8.  Whatever [POST /download] returns as a result describes a file that
    is in the directory the engine left, untouched by the job: the first
    listed name with the prefix, not empty and within the size limit; the
    reported format is never empty and is in upper case. *)
Theorem download_success_sound
    (cfg : config) (ydl : engine) (req : DownloadRequest) (w w' : world)
    (r : DownloadResult) :
  download_video cfg ydl req w = (inr r, w') ->
  let fname := resolved_name (req_filename req) (clock (env w)) in
  exists (d : gmap string pyval) (o : outside) (e : dirent) (size : Z),
    ydl (download_opts cfg (req_quality req) fname) (req_url req) true (env w)
    = (inr (Some d), o)
    /\ env w' = o
    /\ located_output cfg o fname = Some e
    /\ In e (dir_entries (env w'))
    /\ OS.entry_path (DOWNLOAD_DIR cfg) e = OS.path_join (DOWNLOAD_DIR cfg) (r_filename r)
    /\ d_getsize e = inr size
    /\ size <> 0
    /\ (size # 1048576 <= inject_Z (MAX_FILE_SIZE_MB cfg))%Q
    /\ r_size_mb r = Num.round2 (size # 1048576)
    /\ r_format r <> ""%string
    /\ Py.upper (r_format r) = r_format r.
Proof. apply download_video_success_facts. Qed.

Lemma download_success_sound_witness :
  exists (d : gmap string pyval) (o : outside) (e : dirent) (size : Z),
    ydl_skips (download_opts default_config "720" "clip1") "https://example.com/v" true
      (env limit_world) = (inr (Some d), o)
    /\ located_output default_config o "clip1" = Some e
    /\ d_getsize e = inr size
    /\ size <> 0.
Proof.
  destruct (download_success_sound default_config ydl_skips clip1_request limit_world
              _ _ eq_refl)
    as (d & o & e & size & Y & _ & L & _ & _ & S & N & _).
  exists d, o, e, size. auto.
Defined.

(** X9.  The reported size can be 0: an admitted download whose located
    file has between 1 and 5242 bytes, within the limit, returns
    [size_mb] 0. *)
Theorem download_small_file_size_zero
    (cfg : config) (ydl : engine) (req : DownloadRequest) (w w' : world)
    (r : DownloadResult) (e : dirent) (size : Z) :
  download_video cfg ydl req w = (inr r, w') ->
  located_output cfg (env w') (resolved_name (req_filename req) (clock (env w))) = Some e ->
  d_getsize e = inr size ->
  0 <= size <= 5242 ->
  r_size_mb r = 0 # 100.
Proof.
  intros H Hloc Hsz Hsmall.
  destruct (download_video_success_facts cfg ydl req w w' r H)
    as (d & o & e' & size' & _ & Eo & L' & _ & _ & S' & _ & _ & R & _).
  rewrite Eo, L' in Hloc. injection Hloc as <-.
  rewrite S' in Hsz. injection Hsz as <-.
  rewrite R. unfold Num.round2. f_equal.
  apply round_half_even_small.
  - unfold Qle, Qmult. cbn. lia.
  - unfold Qlt, Qmult. cbn. lia.
Qed.


Lemma download_small_file_size_zero_witness :
  exists r : DownloadResult,
    fst (download_video default_config ydl_skips clip1_request small_world) = inr r
    /\ r_size_mb r = 0 # 100.
Proof.
  eexists. split; [reflexivity|].
  apply (download_small_file_size_zero default_config ydl_skips clip1_request small_world
           _ _ (regular_file "clip1.mp4" 3000 990) 3000 eq_refl eq_refl eq_refl).
  lia.
Defined.

(** ** Binary floats *)

Section FloatFacts.

Import Num.

Lemma two_power_pos (k : Z) : (0 < Qpower 2 k)%Q.
Proof. apply Qpower_0_lt. reflexivity. Qed.

Lemma fl64_pos_nonneg (x : Q) : (0 <= x)%Q -> (0 <= fl64_pos x)%Q.
Proof.
  intros H. unfold fl64_pos.
  set (e := Z.max (Qlog2 x - 52) (-1074)).
  pose proof (two_power_pos e) as P.
  apply Qmult_le_0_compat; [|apply Qlt_le_weak, P].
  change 0%Q with (inject_Z 0). rewrite <- Zle_Qle.
  apply round_half_even_nonneg. apply Qle_shift_div_l; [exact P|]. lra.
Qed.

Lemma fl64_nonneg (x : Q) : (0 <= x)%Q -> (0 <= fl64 x)%Q.
Proof.
  intros H. unfold fl64. destruct (Qlt_bool 0 x).
  - apply fl64_pos_nonneg, H.
  - replace (Qlt_bool x 0) with false by (symmetry; apply Qlt_bool_false, H).
    apply Qle_refl.
Qed.

(** A power of two below a positive rational: the logarithm is not too
    large. *)
Lemma Qlog2_below (x : Q) : (0 < x)%Q -> (Qpower 2 (Qlog2 x) <= x)%Q.
Proof.
  intros Hx. unfold Qlog2.
  set (a := Z.log2 (Qnum x)). set (b := Z.log2 (Z.pos (Qden x))).
  destruct (Qle_bool (Qpower 2 (a - b)) x) eqn:T; [apply Qle_bool_iff, T|].
  assert (Hn : 0 < Qnum x) by (unfold Qlt in Hx; cbn in Hx; lia).
  destruct (Z.log2_spec (Qnum x) Hn) as [Ha _]. fold a in Ha.
  destruct (Z.log2_spec (Z.pos (Qden x)) ltac:(lia)) as [_ Hb]. fold b in Hb.
  assert (A0 : 0 <= a) by apply Z.log2_nonneg.
  assert (B0 : 0 <= b) by apply Z.log2_nonneg.
  replace (a - b - 1) with (a - (b + 1)) by lia.
  rewrite Qpower_minus by discriminate.
  rewrite <- (Zpower_Qpower 2 a A0), <- (Zpower_Qpower 2 (b + 1)) by lia.
  apply Qle_shift_div_r.
  - change 0%Q with (inject_Z 0). rewrite <- Zlt_Qlt. apply Z.pow_pos_nonneg; lia.
  - (* 2^a <= x * 2^(b+1) *)
    destruct x as [n d]. cbn [Qnum Qden] in *.
    unfold Qle, Qmult, inject_Z. cbn [Qnum Qden].
    replace (Z.succ b) with (b + 1) in Hb by lia.
    nia.
Qed.

Lemma round_half_even_int (x : Q) (z : Z) : (x == inject_Z z)%Q -> round_half_even x = z.
Proof.
  intros H. unfold round_half_even.
  assert (F : Qfloor x = z) by (rewrite H; apply Qfloor_Z).
  rewrite F. replace (Qlt_bool (x - inject_Z z) (1 # 2)) with true; [reflexivity|].
  symmetry. apply Qlt_bool_iff. rewrite H. lra.
Qed.

(** A positive rational with at most 53 significant bits, not finer than
    the subnormal scale, is its own binary64. *)
Lemma fl64_exact (x : Q) (n k : Z) :
  0 < n < 2 ^ 53 -> -1074 <= k ->
  (x == inject_Z n * Qpower 2 k)%Q ->
  (fl64 x == x)%Q.
Proof.
  intros [Hn0 Hn1] Hk Hx.
  pose proof (two_power_pos k) as Pk.
  assert (Hn0q : (0 < inject_Z n)%Q) by (change 0%Q with (inject_Z 0); rewrite <- Zlt_Qlt; lia).
  assert (X0 : (0 < x)%Q).
  { rewrite Hx. apply Qmult_lt_0_compat; assumption. }
  unfold fl64. replace (Qlt_bool 0 x) with true by (symmetry; apply Qlt_bool_iff, X0).
  unfold fl64_pos. set (e := Z.max (Qlog2 x - 52) (-1074)).
  assert (He : e <= k).
  { assert (L : Qlog2 x < k + 53).
    { apply (Qpower_lt_compat_l_inv 2); [|reflexivity].
      eapply Qle_lt_trans; [apply Qlog2_below, X0|].
      rewrite Hx. replace (k + 53) with (53 + k) by lia.
      rewrite Qpower_plus by discriminate.
      apply Qmult_lt_compat_r; [exact Pk|].
      rewrite <- (Zpower_Qpower 2 53) by lia. rewrite <- Zlt_Qlt. exact Hn1. }
    subst e. lia. }
  pose proof (two_power_pos e) as Pe.
  assert (D : (x / Qpower 2 e == inject_Z (n * 2 ^ (k - e)))%Q).
  { rewrite Hx, inject_Z_mult, (Zpower_Qpower 2 (k - e)) by lia.
    replace k with ((k - e) + e) at 1 by lia.
    rewrite Qpower_plus by discriminate.
    change (inject_Z 2) with 2%Q. field. intros Z0. rewrite Z0 in Pe. discriminate Pe. }
  rewrite (round_half_even_int _ _ D).
  rewrite <- D. field. intros Z0. rewrite Z0 in Pe. discriminate Pe.
Qed.

End FloatFacts.

(** ** The free space in megabytes *)

Section HealthFacts.

Import Num.

Lemma kilobytes_exact (free : Z) :
  0 < free < 2 ^ 53 ->
  exists kb : Q, int_true_div free 1024 = inr kb /\ (kb == inject_Z free * Qpower 2 (-10))%Q.
Proof.
  intros H. unfold int_true_div. cbn [Z.eqb].
  set (x := (inject_Z free / inject_Z 1024)%Q).
  assert (X : (x == inject_Z free * Qpower 2 (-10))%Q) by (subst x; reflexivity).
  pose proof (fl64_exact x free (-10) H ltac:(lia) X) as E.
  assert (B : (inject_Z free < Qpower 2 1024)%Q).
  { apply Qlt_le_trans with (inject_Z (2 ^ 53)).
    - rewrite <- Zlt_Qlt. apply (proj2 H).
    - rewrite (Zpower_Qpower 2 53) by lia. change (inject_Z 2) with 2%Q.
      apply Qpower_le_compat_l; [lia | discriminate]. }
  assert (P : (0 < inject_Z free)%Q)
    by (change 0%Q with (inject_Z 0); rewrite <- Zlt_Qlt; lia).
  assert (S : (inject_Z free * Qpower 2 (-10) <= inject_Z free)%Q).
  { change (Qpower 2 (-10)) with (1 # 1024)%Q. lra. }
  assert (S0 : (0 <= inject_Z free * Qpower 2 (-10))%Q).
  { change (Qpower 2 (-10)) with (1 # 1024)%Q. lra. }
  replace (Qle_bool (Qpower 2 1024) (Qabs (fl64 x))) with false.
  - exists (fl64 x). split; [reflexivity|]. rewrite E. exact X.
  - symmetry. apply not_true_is_false. intros T. apply Qle_bool_iff in T.
    rewrite E, X in T. rewrite Qabs_pos in T by exact S0.
    apply (Qlt_irrefl (Qpower 2 1024)).
    eapply Qle_lt_trans; [exact T|]. eapply Qle_lt_trans; [exact S | exact B].
Qed.

Lemma free_megabytes_exact (free : Z) (w : world) :
  0 <= free < 2 ^ 53 ->
  exists mb : Z,
    free_megabytes free w = (inr mb, w)
    /\ (Qabs ((free # 1048576) - inject_Z mb) <= 1 # 2)%Q
    /\ 0 <= mb.
Proof.
  intros [H0 H1]. destruct (Z.eq_dec free 0) as [->|Hne].
  { exists 0. split; [reflexivity|]. split; [discriminate | lia]. }
  destruct (kilobytes_exact free ltac:(lia)) as (kb & K & Ek).
  unfold free_megabytes. rewrite K. eexists. split; [reflexivity|].
  assert (X : (kb / 1024 == inject_Z free * Qpower 2 (-20))%Q).
  { rewrite Ek. change (Qpower 2 (-10)) with (1 # 1024)%Q.
    change (Qpower 2 (-20)) with (1 # 1048576)%Q. field. }
  pose proof (fl64_exact (kb / 1024) free (-20) ltac:(lia) ltac:(lia) X) as E.
  assert (M : (free # 1048576 == float_div kb 1024)%Q).
  { unfold float_div. rewrite E, X. change (Qpower 2 (-20)) with (1 # 1048576)%Q.
    unfold Qeq, Qmult, inject_Z. cbn. lia. }
  split.
  - rewrite M. apply round_half_even_near.
  - apply round_half_even_nonneg. rewrite <- M. unfold Qle. cbn. lia.
Qed.

Lemma free_megabytes_cases (free : Z) (w : world) :
  0 <= free ->
  match int_true_div free 1024 with
  | inl msg => free_megabytes free w = (inl (Exception msg), w)
  | inr kb =>
      free_megabytes free w = (inr (round_half_even (float_div kb 1024)), w)
      /\ 0 <= round_half_even (float_div kb 1024)
  end.
Proof.
  intros H. unfold free_megabytes.
  destruct (int_true_div free 1024) as [msg|kb] eqn:K; [reflexivity|].
  split; [reflexivity|]. apply round_half_even_nonneg. unfold float_div.
  apply fl64_nonneg.
  assert (0 <= kb)%Q.
  { unfold int_true_div in K. cbn [Z.eqb] in K.
    destruct (Qle_bool _ _); [discriminate|]. injection K as <-.
    apply fl64_nonneg. apply Qle_shift_div_l; [reflexivity|].
    rewrite Qmult_0_l. change 0%Q with (inject_Z 0). rewrite <- Zle_Qle. exact H. }
  apply Qle_shift_div_l; [reflexivity | lra].
Qed.

End HealthFacts.

(** ** File names, info lookup and health *)

Section EndpointFacts.

Import Py Num.
Local Open Scope string_scope.

Lemma all_digits_uint (d : Decimal.uint) : all_digits (NilEmpty.string_of_uint d) = true.
Proof. induction d; simpl; try reflexivity; exact IHd. Qed.

Lemma str_of_int_digits (n : Z) :
  0 <= n -> all_digits (str_of_int n) = true /\ str_of_int n <> "".
Proof.
  intros H. unfold str_of_int, NilZero.string_of_int.
  destruct n as [|p|p]; [split; [reflexivity | discriminate] | | lia].
  cbn [Z.to_int]. unfold NilZero.string_of_uint.
  destruct (Pos.to_uint p) eqn:E; try (split; [|discriminate]);
    try reflexivity;
    match goal with
    | |- all_digits (NilEmpty.string_of_uint ?u) = true => apply (all_digits_uint u)
    end.
Qed.

Lemma int_of_float_nonneg (x : Q) : (0 <= x)%Q -> int_of_float x = Qfloor x /\ 0 <= Qfloor x.
Proof.
  intros H. unfold int_of_float.
  replace (Qlt_bool x 0) with false by (symmetry; apply Qlt_bool_false, H).
  split; [reflexivity|]. change 0 with (Qfloor 0). apply Qfloor_resp_le, H.
Qed.

(** The clock reading in milliseconds, as the float product gives it, is
    not negative when the clock is not. *)
Lemma milliseconds_nonneg (now : Q) :
  (0 <= now)%Q -> (0 <= float_mul (float_of_clock now) 1000)%Q.
Proof.
  intros H. unfold float_mul, float_of_clock. apply fl64_nonneg.
  apply Qmult_le_0_compat; [apply fl64_nonneg, H | discriminate].
Qed.

Lemma free_megabytes_world (free : Z) (w : world) : snd (free_megabytes free w) = w.
Proof. unfold free_megabytes. destruct (int_true_div free 1024); reflexivity. Qed.

Lemma health_run (cfg : config) (version : string) (free : Z) (w : world) :
  health cfg version (inr free) w =
  (inr {| h_status := "ok";
          h_version := version;
          h_active_downloads := active_downloads w;
          h_max_concurrent := MAX_CONCURRENT cfg;
          h_disk_free_mb := match fst (free_megabytes free w) with
                            | inr mb => mb
                            | inl _ => -1
                            end |}, w).
Proof.
  unfold health, free_megabytes. destruct (int_true_div free 1024); reflexivity.
Qed.

Variable cfg : config.
Variable ydl : engine.

(** What [get_info] answers, from what the engine reports. *)
Lemma get_info_run (url : string) (w : world) :
  get_info cfg ydl url w =
  match ydl info_opts url false (env w) with
  | (inl msg, o) =>
      (inl (HTTPException 400 (_parse_error cfg msg)),
       with_env (fun _ => o) (emit EvJob w))
  | (inr None, o) =>
      (inl (HTTPException 400 "'NoneType' object has no attribute 'get'"),
       with_env (fun _ => o) (emit EvJob w))
  | (inr (Some d), o) =>
      (inr {| i_title := dict_get d "title";
              i_duration := dict_get d "duration";
              i_filesize := py_or (dict_get d "filesize") (dict_get d "filesize_approx");
              i_uploader := dict_get d "uploader";
              i_thumbnail := dict_get d "thumbnail";
              i_url := py_or (dict_get d "url") (dict_get d "webpage_url") |},
       with_env (fun _ => o) (emit EvJob w))
  end.
Proof.
  unfold get_info, to_thread. run_m.
  destruct (ydl info_opts url false (env w)) as [[msg|[d|]] o] eqn:Y.
  - unfold _extract_info, extract_info. run_m. cbn [env emit]. rewrite Y. reflexivity.
  - rewrite (extract_info_run ydl url (emit EvJob w) d o Y). reflexivity.
  - unfold _extract_info, extract_info, info_get. run_m. cbn [env emit]. rewrite Y.
    reflexivity.
Qed.

End EndpointFacts.

(** X10.  The base filename of a download is the requested one when that is
    a non-empty string; otherwise, with the clock not before the epoch, it
    is [video_] followed by the decimal digits of the whole part of the
    float product of the clock reading and 1000.  It is never empty, and
    finding it changes nothing. *)
Theorem resolve_filename_cases (filename : option string) (w : world) :
  exists name : string,
    resolve_filename filename w = (inr name, w)
    /\ name <> ""%string
    /\ (forall f : string, filename = Some f -> f <> ""%string -> name = f)
    /\ (filename = None \/ filename = Some ""%string ->
        (0 <= clock (env w))%Q ->
        exists digits : string,
          name = ("video_" ++ digits)%string
          /\ digits
             = Py.str_of_int
                 (Qfloor (Num.float_mul (Num.float_of_clock (clock (env w))) 1000))
          /\ digits <> ""%string
          /\ all_digits digits = true).
Proof.
  exists (resolved_name filename (clock (env w))).
  split; [apply resolve_filename_run|]. split; [|split].
  - destruct filename as [[|c f]|]; discriminate.
  - intros f -> Hf. destruct f; [contradiction | reflexivity].
  - intros Hm Hc.
    destruct (int_of_float_nonneg _ (milliseconds_nonneg _ Hc)) as [E F].
    destruct (str_of_int_digits _ F) as [D N].
    eexists. split; [|split; [reflexivity | auto]].
    destruct Hm as [->| ->]; cbn [resolved_name]; rewrite E; reflexivity.
Qed.

Lemma resolve_filename_cases_witness :
  exists name : string,
    resolve_filename None millisecond_world = (inr name, millisecond_world)
    /\ exists digits : string,
         name = ("video_" ++ digits)%string
         /\ digits = "1762214400001"%string
         /\ all_digits digits = true.
Proof.
  destruct (resolve_filename_cases None millisecond_world) as (name & E & _ & _ & H).
  exists name. split; [exact E|].
  destruct (H (or_introl eq_refl) ltac:(discriminate)) as (digits & A & B & _ & C).
  exists digits. split; [exact A|]. split; [|exact C].
  rewrite B. vm_compute. reflexivity.
Defined.

(** X11.  The info lookup is not gated by admission: it leaves the semaphore
    and the counter as they are, and its answer and what it does to the
    outside world are the same whatever their values, a full house
    included. *)
Theorem get_info_not_gated (cfg : config) (ydl : engine) (url : string) (w : world) :
  semaphore (snd (get_info cfg ydl url w)) = semaphore w
  /\ active_downloads (snd (get_info cfg ydl url w)) = active_downloads w
  /\ forall w2 : world,
       env w2 = env w ->
       fst (get_info cfg ydl url w2) = fst (get_info cfg ydl url w)
       /\ env (snd (get_info cfg ydl url w2)) = env (snd (get_info cfg ydl url w)).
Proof.
  split; [|split].
  - rewrite get_info_run.
    destruct (ydl info_opts url false (env w)) as [[msg|[d|]] o]; reflexivity.
  - rewrite get_info_run.
    destruct (ydl info_opts url false (env w)) as [[msg|[d|]] o]; reflexivity.
  - intros w2 E. rewrite !get_info_run, E.
    destruct (ydl info_opts url false (env w)) as [[msg|[d|]] o]; split; reflexivity.
Qed.

Lemma get_info_not_gated_witness :
  fst (get_info default_config ydl_approx "https://example.com/v" busy_world)
  = fst (get_info default_config ydl_approx "https://example.com/v" idle_world).
Proof.
  destruct (get_info_not_gated default_config ydl_approx "https://example.com/v" idle_world)
    as (_ & _ & H).
  apply (H busy_world). reflexivity.
Defined.

(** X12.  [POST /info] raises nothing but [HTTPException] 400: with the
    engine's message as classified when the engine fails, and with the
    attribute error's text when the engine reports no dictionary. *)
Theorem get_info_errors (cfg : config) (ydl : engine) (url : string) (w : world) :
  (forall (msg : string) (o : outside),
     ydl info_opts url false (env w) = (inl msg, o) ->
     fst (get_info cfg ydl url w) = inl (HTTPException 400 (_parse_error cfg msg)))
  /\ (forall o : outside,
        ydl info_opts url false (env w) = (inr None, o) ->
        fst (get_info cfg ydl url w)
        = inl (HTTPException 400 "'NoneType' object has no attribute 'get'"))
  /\ (forall e : exn,
        fst (get_info cfg ydl url w) = inl e ->
        exists detail : string, e = HTTPException 400 detail).
Proof.
  split; [|split].
  - intros msg o Y. rewrite get_info_run, Y. reflexivity.
  - intros o Y. rewrite get_info_run, Y. reflexivity.
  - intros e. rewrite get_info_run.
    destruct (ydl info_opts url false (env w)) as [[msg|[d|]] o]; cbn [fst];
      intros [= <-] || discriminate; eauto.
Qed.

Lemma get_info_errors_witness :
  fst (get_info default_config (ydl_fails "ERROR: Unsupported URL: ftp://x") "ftp://x"
         idle_world)
  = inl (HTTPException 400 "Unsupported URL or no video found")
  /\ fst (get_info default_config ydl_none "https://example.com/v" idle_world)
     = inl (HTTPException 400 "'NoneType' object has no attribute 'get'").
Proof.
  destruct (get_info_errors default_config (ydl_fails "ERROR: Unsupported URL: ftp://x")
              "ftp://x" idle_world) as (H1 & _).
  destruct (get_info_errors default_config ydl_none "https://example.com/v" idle_world)
    as (_ & H2 & _).
  split.
  - apply (H1 "ERROR: Unsupported URL: ftp://x"%string (env idle_world)). reflexivity.
  - apply (H2 (env idle_world)). reflexivity.
Defined.

(** X13.  The health check never raises and changes nothing; it reports the
    counter and the configured [MAX_CONCURRENT]; [disk_free_mb] is -1 when
    the disk usage cannot be read.  When the free space is a number of bytes
    below 2^53 (which a float holds exactly), it is the free space rounded
    to the nearest megabyte, and not negative.  For any free space that is
    not negative, it is -1 only when the true division overflows, and
    otherwise the rounded float quotient, which is not negative. *)
Theorem health_report (cfg : config) (version : string) (disk : string + Z) (w : world) :
  exists h : HealthResult,
    health cfg version disk w = (inr h, w)
    /\ h_active_downloads h = active_downloads w
    /\ h_max_concurrent h = MAX_CONCURRENT cfg
    /\ h_version h = version
    /\ (forall msg : string, disk = inl msg -> h_disk_free_mb h = -1)
    /\ (forall free : Z,
          disk = inr free ->
          0 <= free < 2 ^ 53 ->
          (Qabs ((free # 1048576) - inject_Z (h_disk_free_mb h)) <= 1 # 2)%Q
          /\ 0 <= h_disk_free_mb h)
    /\ (forall free : Z,
          disk = inr free ->
          0 <= free ->
          match Num.int_true_div free 1024 with
          | inl _ => h_disk_free_mb h = -1
          | inr kb =>
              h_disk_free_mb h = Num.round_half_even (Num.float_div kb 1024)
              /\ 0 <= h_disk_free_mb h
          end).
Proof.
  destruct disk as [msg|free].
  - eexists. split; [reflexivity|].
    cbn [h_active_downloads h_max_concurrent h_version h_disk_free_mb].
    do 3 (split; [reflexivity|]). split; [reflexivity|]. split; discriminate.
  - eexists. split; [apply health_run|].
    cbn [h_active_downloads h_max_concurrent h_version h_disk_free_mb].
    do 3 (split; [reflexivity|]). split; [discriminate|]. split.
    + intros free' [= <-] Hf.
      destruct (free_megabytes_exact free w Hf) as (mb & E & Hn & Hp).
      rewrite E. cbn [fst]. auto.
    + intros free' [= <-] Hf.
      pose proof (free_megabytes_cases free w Hf) as C.
      destruct (Num.int_true_div free 1024) as [m|kb].
      * rewrite C. reflexivity.
      * destruct C as [C P]. rewrite C. cbn [fst]. auto.
Qed.

Lemma health_report_witness :
  exists h : HealthResult,
    health default_config "2024.08.06" (inr 5368709120) idle_world = (inr h, idle_world)
    /\ h_disk_free_mb h = 5120
    /\ (Qabs ((5368709120 # 1048576) - inject_Z (h_disk_free_mb h)) <= 1 # 2)%Q.
Proof.
  destruct (health_report default_config "2024.08.06" (inr 5368709120) idle_world)
    as (h & E & _ & _ & _ & _ & N & _).
  exists h. split; [exact E|]. split.
  - injection E as <-. vm_compute. reflexivity.
  - apply (N 5368709120 eq_refl). lia.
Defined.

(** ** More on the sweeper *)

Section SweeperMore.

Variable cfg : config.

Local Abbreviation path_of := (OS.entry_path (DOWNLOAD_DIR cfg)).

Lemma shrunk_refl (w : world) : shrunk w w.
Proof. repeat split. apply List.incl_refl. Qed.

Lemma shrunk_trans (w1 w2 w3 : world) : shrunk w1 w2 -> shrunk w2 w3 -> shrunk w1 w3.
Proof.
  intros (A1 & A2 & A3 & A4 & A5 & A6) (B1 & B2 & B3 & B4 & B5 & B6).
  repeat split; try congruence. eapply List.incl_tran; eauto.
Qed.

Lemma cleanup_file_shrinks (now : Q) (f : string) (w : world) :
  fst (_cleanup_file cfg now f w) = inr tt /\ shrunk w (snd (_cleanup_file cfg now f w)).
Proof.
  unfold _cleanup_file, OS.path_isfile, OS.path_getmtime, OS.unlink. run_m.
  destruct (OS.find_entry _ _ (env w)) as [e|] eqn:E;
    [|split; [reflexivity | apply shrunk_refl]].
  destruct (d_isfile e); [|split; [reflexivity | apply shrunk_refl]].
  rewrite E.
  destruct (d_getmtime e) as [msg|mtime]; [split; [reflexivity | apply shrunk_refl]|].
  destruct (Num.Qlt_bool 600 (now - mtime)); [|split; [reflexivity | apply shrunk_refl]].
  rewrite E.
  destruct (d_unlink e); [split; [reflexivity | apply shrunk_refl]|].
  split; [reflexivity|]. cbn [snd]. repeat split. cbn. apply List.incl_filter.
Qed.

Lemma for_each_shrinks (now : Q) (names : list string) (w : world) :
  fst (for_each names (_cleanup_file cfg now) w) = inr tt
  /\ shrunk w (snd (for_each names (_cleanup_file cfg now) w)).
Proof.
  revert w. induction names as [|f names IH]; intros w.
  - split; [reflexivity | apply shrunk_refl].
  - cbn [for_each]. run_m. destruct (cleanup_file_shrinks now f w) as [F S].
    destruct (_cleanup_file cfg now f w) as [[e|[]] w1]; cbn [fst snd] in F, S;
      [discriminate|].
    destruct (IH w1) as [F1 S1]. split; [exact F1|]. eapply shrunk_trans; eauto.
Qed.

Lemma cleanup_shrinks (w : world) :
  shrunk w (snd (_cleanup_old_files cfg w))
  /\ (listdir_error (env w) = None -> fst (_cleanup_old_files cfg w) = inr tt).
Proof.
  unfold _cleanup_old_files, OS.time_time, OS.listdir. run_m.
  rewrite String.eqb_refl.
  destruct (listdir_error (env w)) as [msg|] eqn:L.
  - split; [apply shrunk_refl | discriminate].
  - destruct (for_each_shrinks (clock (env w)) (List.map d_name (dir_entries (env w))) w)
      as [F S].
    split; [exact S | intros _; exact F].
Qed.

Lemma NoDup_map_filter {A B} (f : A -> B) (p : A -> bool) (l : list A) :
  List.NoDup (List.map f l) -> List.NoDup (List.map f (List.filter p l)).
Proof.
  induction l as [|a l IH]; intros H; [constructor|]. cbn [List.map] in H.
  apply List.NoDup_cons_iff in H as [Ha Hl]. cbn [List.filter].
  destruct (p a); [|apply IH, Hl]. cbn [List.map]. constructor; [|apply IH, Hl].
  intros Hin. apply Ha. apply List.in_map_iff in Hin as (x & E & Hx).
  apply List.filter_In in Hx as [Hx _]. rewrite <- E. apply List.in_map, Hx.
Qed.

Lemma filter_twice {A} (p : A -> bool) (l : list A) :
  List.filter p (List.filter p l) = List.filter p l.
Proof.
  induction l as [|a l IH]; [reflexivity|]. cbn [List.filter].
  destruct (p a) eqn:E; [|exact IH]. cbn [List.filter]. rewrite E, IH. reflexivity.
Qed.

Lemma cleanup_again (w : world) :
  listdir_error (env w) = None ->
  List.NoDup (List.map path_of (dir_entries (env w))) ->
  _cleanup_old_files cfg (snd (_cleanup_old_files cfg w))
  = (inr tt, snd (_cleanup_old_files cfg w)).
Proof.
  intros L N. rewrite (cleanup_old_files_run cfg w L N). cbn [snd].
  rewrite cleanup_old_files_run.
  - cbn [set_entries with_env with_entries env clock dir_entries].
    rewrite filter_twice. reflexivity.
  - exact L.
  - cbn [set_entries with_env with_entries env dir_entries].
    apply NoDup_map_filter, N.
Qed.

End SweeperMore.

(** X14.  A sweep only removes entries: whatever the directory holds and
    whether or not it can be listed, afterwards every entry is one that was
    there before, the clock, the semaphore, the counter and the trace are
    as they were; and with a directory that can be listed the sweep does
    not raise, whatever fails for single files. *)
Theorem cleanup_only_removes (cfg : config) (w : world) :
  shrunk w (snd (_cleanup_old_files cfg w))
  /\ (listdir_error (env w) = None -> fst (_cleanup_old_files cfg w) = inr tt).
Proof. apply cleanup_shrinks. Qed.

Lemma cleanup_only_removes_witness :
  shrunk sweep_world (snd (_cleanup_old_files default_config sweep_world))
  /\ fst (_cleanup_old_files default_config sweep_world) = inr tt.
Proof.
  destruct (cleanup_only_removes default_config sweep_world) as [S F].
  split; [exact S | apply F; reflexivity].
Defined.

(** X15.  Sweeping is idempotent: on a directory with distinct paths that can
    be listed, a second sweep at the same clock reading removes nothing
    more. *)
Theorem cleanup_twice (cfg : config) (w : world) :
  listdir_error (env w) = None ->
  List.NoDup (List.map (OS.entry_path (DOWNLOAD_DIR cfg)) (dir_entries (env w))) ->
  _cleanup_old_files cfg (snd (_cleanup_old_files cfg w))
  = (inr tt, snd (_cleanup_old_files cfg w)).
Proof. apply cleanup_again. Qed.

Lemma cleanup_twice_witness :
  _cleanup_old_files default_config (snd (_cleanup_old_files default_config sweep_world))
  = (inr tt, snd (_cleanup_old_files default_config sweep_world)).
Proof.
  apply (cleanup_twice default_config sweep_world eq_refl).
  cbn. repeat (constructor;
               [intros Hin; cbn in Hin;
                repeat (destruct Hin as [Hin|Hin]; [discriminate|]); exact Hin|]).
  constructor.
Defined.

(** ** More on concurrent requests *)

Section ScheduleFacts.

Import Interleaving.

Variable cfg : config.



End ScheduleFacts.

(** X16.  Never more requests hold a slot than [MAX_CONCURRENT]: in every
    state the interleaved handlers can reach, the requests that hold a slot
    or run are at most that many, and when they are that many no waiting
    request can be granted one. *)
Theorem at_most_max_concurrent (cfg : config) (s : Interleaving.server) :
  0 <= MAX_CONCURRENT cfg ->
  Interleaving.reachable cfg s ->
  Interleaving.count Interleaving.is_holding (Interleaving.s_tasks s)
  + Interleaving.count Interleaving.is_running (Interleaving.s_tasks s)
  <= MAX_CONCURRENT cfg
  /\ (Interleaving.count Interleaving.is_holding (Interleaving.s_tasks s)
      + Interleaving.count Interleaving.is_running (Interleaving.s_tasks s)
      = MAX_CONCURRENT cfg ->
      forall i : nat, Interleaving.step cfg (Interleaving.Grant i) s = None).
Proof.
  intros Hmax Hr.
  destruct (InterleavingFacts.inv_reachable cfg s Hmax Hr) as [Hsem _ Hslots _].
  split; [lia|]. intros Hfull i. cbn.
  destruct (Interleaving.s_tasks s !! i) as [[since| | |r]|]; try reflexivity.
  replace (0 <? Interleaving.s_semaphore s) with false; [reflexivity|].
  symmetry. apply Z.ltb_ge. lia.
Qed.

Lemma at_most_max_concurrent_witness :
  Interleaving.run default_config five_running (Interleaving.init default_config 0)
  = Some full_house
  /\ Interleaving.step default_config (Interleaving.Grant 5) full_house = None.
Proof.
  assert (R : Interleaving.run default_config five_running
                (Interleaving.init default_config 0) = Some full_house)
    by (vm_compute; reflexivity).
  split; [exact R|].
  destruct (at_most_max_concurrent default_config full_house ltac:(vm_compute; discriminate)
              (ex_intro _ 0%Q (ex_intro _ five_running R))) as [_ H].
  apply H. vm_compute. reflexivity.
Defined.



(** ** The options handed to the engine *)


